(** * PasswordChecker: a model of [password_checker.py] and its properties

    The development embeds the class [PasswordStrengthChecker] of
    [src/password_checker.py]:

    - a Python [str] is a list of Unicode code points ([N]);
    - a Python [float] is a real number: rounding is not modelled, the
      range error of float exponentiation ([OverflowError]) is;
    - a raised exception is the [Raise] case of [result];
    - the module [random] is a state monad over a stream of raw draws. *)

From Stdlib Require Import List String Ascii ZArith NArith Bool Lia Permutation.
From Stdlib Require Import Reals Lra.
Import ListNotations.

Local Open Scope Z_scope.

(** ** Strings *)

Definition char := N.
Definition str := list char.

(** The code points of an ASCII literal of the source. *)
Definition py (s : string) : str := map N_of_ascii (list_ascii_of_string s).

Definition in_range (lo hi c : N) : bool := (N.leb lo c && N.leb c hi)%bool.

Definition char_in (c : char) (s : str) : bool := existsb (N.eqb c) s.

Fixpoint str_eqb (a b : str) : bool :=
  match a, b with
  | [], [] => true
  | x :: a', y :: b' => (N.eqb x y && str_eqb a' b')%bool
  | _, _ => false
  end.

(** [x in s] for a set of strings. *)
Definition str_in (x : str) (s : list str) : bool := existsb (str_eqb x) s.

Definition len (s : str) : Z := Z.of_nat (List.length s).

(** ** Exceptions *)

Inductive exn := OverflowError | IndexError.

Inductive result (A : Type) :=
| Ok (a : A)
| Raise (e : exn).
Arguments Ok {A} a.
Arguments Raise {A} e.

(** ** The regular expressions of the checker *)

(** [[A-Z]] and [[a-z]]: no flag is given, so only the ASCII ranges match. *)
Definition is_upper (c : char) : bool := in_range 65 90 c.
Definition is_lower (c : char) : bool := in_range 97 122 c.

(** The characters of the bracket expression of the fourth search (thirty
    of them, its backslashes being escapes); code point 34 is the double
    quote. *)
Definition special_class : str :=
  py "!@#$%^&*()_+-=[]{};':" ++ [34%N] ++ py "\|,.<>/?".

Definition is_special (c : char) : bool := char_in c special_class.

(** The first code point of every run of ten decimal digits of the Unicode
    database (general category Nd, Unicode 15.0), U+1D7CE..U+1D7FF apart. *)
Definition decimal_zeros : list N :=
  [ 0x0030; 0x0660; 0x06F0; 0x07C0; 0x0966; 0x09E6; 0x0A66; 0x0AE6; 0x0B66;
    0x0BE6; 0x0C66; 0x0CE6; 0x0D66; 0x0DE6; 0x0E50; 0x0ED0; 0x0F20; 0x1040;
    0x1090; 0x17E0; 0x1810; 0x1946; 0x19D0; 0x1A80; 0x1A90; 0x1B50; 0x1BB0;
    0x1C40; 0x1C50; 0xA620; 0xA8D0; 0xA900; 0xA9D0; 0xA9F0; 0xAA50; 0xABF0;
    0xFF10; 0x104A0; 0x10D30; 0x11066; 0x110F0; 0x11136; 0x111D0; 0x112F0;
    0x11450; 0x114D0; 0x11650; 0x116C0; 0x11730; 0x118E0; 0x11950; 0x11C50;
    0x11D50; 0x11DA0; 0x11F50; 0x16A60; 0x16AC0; 0x16B50; 0x1E140; 0x1E2F0;
    0x1E4F0; 0x1E950; 0x1FBF0 ]%N.

(** [\d] on a [str] pattern: any Unicode decimal digit, not only [0-9]. *)
Definition is_digit (c : char) : bool :=
  (existsb (fun z => in_range z (z + 9) c) decimal_zeros
   || in_range 0x1D7CE 0x1D7FF c)%bool.

(** [bool(re.search(cls, password))] for a one-character class. *)
Definition re_search (cls : char -> bool) (password : str) : bool :=
  existsb cls password.

(** ** [str.lower] *)

Definition is_ascii (c : char) : bool := N.ltb c 128.

Definition ascii_lower (c : char) : char :=
  if is_upper c then (c + 32)%N else c.

Section Checker.

(** The full Unicode lower-casing of the interpreter, which [str.lower]
    applies to a string that is not pure ASCII.  Its case tables are not
    part of the repository. *)
Variable unicode_lower : str -> str.

Definition lower (s : str) : str :=
  if forallb is_ascii s then map ascii_lower s else unicode_lower s.

(** ** [_load_common_passwords] *)

Definition _load_common_passwords : list str := map py
  [ "123456"; "password"; "123456789"; "12345678"; "12345"; "qwerty"; "abc123";
    "111111"; "1234567"; "123123"; "admin"; "letmein"; "welcome"; "monkey";
    "password123"; "1234567890"; "dragon"; "master"; "hello"; "freedom";
    "whatever"; "qazwsx"; "trustno1"; "jordan"; "harley"; "hunter"; "buster";
    "thomas"; "tigger"; "robert"; "soccer"; "batman"; "test"; "pass"; "killer";
    "hunter"; "mike"; "charlie"; "andrew"; "matthew"; "access"; "shadow";
    "michael"; "jessica"; "diamond"; "jordan"; "mustang"; "mickey"; "secret";
    "dallas"; "dennis"; "ginger"; "striker"; "hammer"; "silver"; "joseph";
    "blowme"; "spitfire"; "green"; "superman"; "bigdaddy"; "johnson"; "chester";
    "london"; "midnight"; "blue"; "fishing"; "david"; "maddog"; "eagles";
    "mackenzie"; "donna"; "murphy"; "frank"; "green"; "lucky"; "andrew";
    "charlie"; "michael"; "sarah"; "jessica"; "jordan"; "tiger"; "hunter";
    "michelle"; "chris"; "jessica"; "amanda"; "daniel"; "joshua"; "michael";
    "jennifer"; "thomas"; "jessica"; "amanda"; "daniel"; "joshua"; "michael";
    "jennifer"; "thomas"; "jessica"; "amanda"; "daniel"; "joshua"; "michael"
  ]%string.

Definition common_passwords : list str := _load_common_passwords.

(** ** [_calculate_entropy] *)

Definition log2 (x : R) : R := (ln x / ln 2)%R.

Definition charset_size (password : str) : Z :=
  (if re_search is_lower password then 26 else 0)
  + (if re_search is_upper password then 26 else 0)
  + (if re_search is_digit password then 10 else 0)
  + (if re_search is_special password then 32 else 0).

Definition _calculate_entropy (password : str) : R :=
  match password with
  | [] => 0%R
  | _ =>
      let charset_size := charset_size password in
      if charset_size =? 0 then 0%R
      else log2 (IZR (charset_size ^ len password))
  end.

(** ** [_estimate_crack_time] *)

(** The returned string: [Formatted v u] is the value [v] printed with one
    decimal place, a blank and the unit [u]. *)
Inductive crack_time_str :=
| Instant
| LessThan1Second
| Formatted (value : R) (unit_name : string).

(** [2 ** x] on floats: the result leaves the range of a double from
    [x = 1024] on, and Python raises [OverflowError]. *)
Definition float_pow2 (x : R) : result R :=
  if Rle_dec 1024 x then Raise OverflowError else Ok (Rpower 2 x).

Definition _estimate_crack_time (entropy : R) : result crack_time_str :=
  if Rle_dec entropy 0 then Ok Instant
  else
    let attempts_per_second := 1000000000%R in
    match float_pow2 (entropy - 1) with
    | Raise e => Raise e
    | Ok total_attempts =>
        let seconds := (total_attempts / attempts_per_second)%R in
        if Rlt_dec seconds 1 then Ok LessThan1Second
        else if Rlt_dec seconds 60 then Ok (Formatted seconds "seconds")
        else if Rlt_dec seconds 3600 then
          Ok (Formatted (seconds / 60) "minutes")
        else if Rlt_dec seconds 86400 then
          Ok (Formatted (seconds / 3600) "hours")
        else if Rlt_dec seconds 31536000 then
          Ok (Formatted (seconds / 86400) "days")
        else Ok (Formatted (seconds / 31536000) "years")
    end.

(** ** [check_password_strength] *)

Record checks_dict := {
  chk_length : bool;
  chk_uppercase : bool;
  chk_lowercase : bool;
  chk_numbers : bool;
  chk_special : bool
}.

(** The returned dictionary; a key the branch does not set is [None]. *)
Record report := {
  strength : string;
  score : Z;
  entropy : option R;
  crack_time : option crack_time_str;
  issues : list string;
  recommendations : option (list string);
  checks : option checks_dict
}.

(** The local variables after the length and variety checks (the statements
    from [score = 0] to the last [recommendations.append]). *)
Record scoring := {
  sc_score : Z;
  sc_issues : list string;
  sc_recommendations : list string;
  has_upper : bool;
  has_lower : bool;
  has_digit : bool;
  has_special : bool
}.

Definition score_password (password : str) : scoring :=
  let score := 0 in
  let issues := [] in
  let recommendations := [] in
  let '(score, issues, recommendations) :=
    if len password <? 8 then
      (score,
       issues ++ ["Password is too short (minimum 8 characters)"%string],
       recommendations
         ++ ["Increase password length to at least 8 characters"%string])
    else if len password >=? 12 then (score + 2, issues, recommendations)
    else (score + 1, issues, recommendations) in
  let has_upper := re_search is_upper password in
  let has_lower := re_search is_lower password in
  let has_digit := re_search is_digit password in
  let has_special := re_search is_special password in
  let '(score, issues, recommendations) :=
    if has_upper then (score + 1, issues, recommendations)
    else (score, issues ++ ["No uppercase letters"%string],
          recommendations ++ ["Add uppercase letters (A-Z)"%string]) in
  let '(score, issues, recommendations) :=
    if has_lower then (score + 1, issues, recommendations)
    else (score, issues ++ ["No lowercase letters"%string],
          recommendations ++ ["Add lowercase letters (a-z)"%string]) in
  let '(score, issues, recommendations) :=
    if has_digit then (score + 1, issues, recommendations)
    else (score, issues ++ ["No numbers"%string],
          recommendations ++ ["Add numbers (0-9)"%string]) in
  let '(score, issues, recommendations) :=
    if has_special then (score + 1, issues, recommendations)
    else (score, issues ++ ["No special characters"%string],
          recommendations ++ ["Add special characters (!@#$%^&*...)"%string]) in
  {| sc_score := score; sc_issues := issues;
     sc_recommendations := recommendations;
     has_upper := has_upper; has_lower := has_lower;
     has_digit := has_digit; has_special := has_special |}.

Definition strength_of_score (score : Z) : string :=
  if score <=? 2 then "Weak"
  else if score <=? 4 then "Moderate"
  else "Strong".

Definition empty_report : report :=
  {| strength := "Weak"; score := 0; entropy := None; crack_time := None;
     issues := ["Password is empty"%string]; recommendations := None;
     checks := None |}.

Definition common_report : report :=
  {| strength := "Very Weak"; score := 0; entropy := None; crack_time := None;
     issues := ["Password is in the top 1000 common passwords list"%string];
     recommendations :=
       Some ["Choose a unique password that's not commonly used"%string];
     checks := None |}.

Definition scored_report (password : str) (s : scoring) (e : R)
    (ct : crack_time_str) : report :=
  {| strength := strength_of_score (sc_score s);
     score := sc_score s;
     entropy := Some e;
     crack_time := Some ct;
     issues := sc_issues s;
     recommendations := Some (sc_recommendations s);
     checks := Some {| chk_length := len password >=? 8;
                       chk_uppercase := has_upper s;
                       chk_lowercase := has_lower s;
                       chk_numbers := has_digit s;
                       chk_special := has_special s |} |}.

Definition check_password_strength (password : str) : result report :=
  match password with
  | [] => Ok empty_report
  | _ =>
      if str_in (lower password) common_passwords then Ok common_report
      else
        let s := score_password password in
        let entropy := _calculate_entropy password in
        match _estimate_crack_time entropy with
        | Raise e => Raise e
        | Ok crack_time => Ok (scored_report password s entropy crack_time)
        end
  end.

End Checker.

(** ** The module [random] *)

(** The random source: the stream of the raw draws still to come. *)
Definition rng := nat -> nat.

Definition M (A : Type) : Type := rng -> result (A * rng).

Definition ret {A} (a : A) : M A := fun g => Ok (a, g).

Definition bind {A B} (m : M A) (k : A -> M B) : M B :=
  fun g => match m g with
           | Ok (a, g') => k a g'
           | Raise e => Raise e
           end.

Definition raise {A} (e : exn) : M A := fun _ => Raise e.

Notation "x <- m ;; k" := (bind m (fun x => k))
  (at level 61, m at next level, right associativity).

(** [_randbelow(n)] for [0 < n]: the next draw, reduced to [range(n)]. *)
Definition randbelow (n : nat) : M nat :=
  fun g => Ok ((g 0 mod n)%nat, fun i => g (S i)).

(** [random.choice(seq)]; an empty sequence raises [IndexError]. *)
Definition choice (seq : str) : M char :=
  match seq with
  | [] => raise IndexError
  | _ =>
      k <- randbelow (List.length seq) ;;
      match nth_error seq k with
      | Some c => ret c
      | None => raise IndexError
      end
  end.

Fixpoint set_nth {A} (i : nat) (v : A) (l : list A) : list A :=
  match l, i with
  | [], _ => []
  | _ :: t, O => v :: t
  | h :: t, S i' => h :: set_nth i' v t
  end.

(** [x[i], x[j] = x[j], x[i]] *)
Definition swap (x : str) (i j : nat) : M str :=
  match nth_error x j, nth_error x i with
  | Some xj, Some xi => ret (set_nth j xi (set_nth i xj x))
  | _, _ => raise IndexError
  end.

(** The loop of [random.shuffle]: [i] runs from [len(x) - 1] down to [1]. *)
Fixpoint shuffle_from (i : nat) (x : str) : M str :=
  match i with
  | O => ret x
  | S i' =>
      j <- randbelow (i + 1) ;;
      x <- swap x i j ;;
      shuffle_from i' x
  end.

Definition shuffle (x : str) : M str := shuffle_from (List.length x - 1) x.

(** ** [generate_strong_password] *)

(** [s.replace(c, '')] for a one-character [c]. *)
Definition remove_char (c : string) (s : str) : str :=
  filter (fun x => negb (char_in x (py c))) s.

Definition gen_lowercase (exclude_similar : bool) : str :=
  let lowercase := py "abcdefghijklmnopqrstuvwxyz" in
  if exclude_similar then remove_char "i" (remove_char "l" lowercase)
  else lowercase.

Definition gen_uppercase (exclude_similar : bool) : str :=
  let uppercase := py "ABCDEFGHIJKLMNOPQRSTUVWXYZ" in
  if exclude_similar then remove_char "O" (remove_char "I" uppercase)
  else uppercase.

Definition gen_digits (exclude_similar : bool) : str :=
  let digits := py "0123456789" in
  if exclude_similar then remove_char "1" (remove_char "0" digits)
  else digits.

Definition gen_special (exclude_similar : bool) : str :=
  let special := py "!@#$%^&*()_+-=[]{}|;:,.<>?" in
  if exclude_similar then remove_char "I" (remove_char "|" special)
  else special.

(** [for _ in range(n): password.append(random.choice(all_chars))] *)
Fixpoint fill (n : nat) (all_chars password : str) : M str :=
  match n with
  | O => ret password
  | S n' =>
      c <- choice all_chars ;;
      fill n' all_chars (password ++ [c])
  end.

Definition generate_strong_password (length : Z) (exclude_similar : bool)
    : M str :=
  let length := if length <? 8 then 8 else length in
  let lowercase := gen_lowercase exclude_similar in
  let uppercase := gen_uppercase exclude_similar in
  let digits := gen_digits exclude_similar in
  let special := gen_special exclude_similar in
  c1 <- choice lowercase ;;
  c2 <- choice uppercase ;;
  c3 <- choice digits ;;
  c4 <- choice special ;;
  let password := [c1; c2; c3; c4] in
  let all_chars := lowercase ++ uppercase ++ digits ++ special in
  password <- fill (Z.to_nat (length - 4)) all_chars password ;;
  password <- shuffle password ;;
  ret password.

(** The characters removed when [exclude_similar] is set. *)
Definition similar_chars : str := py "liIO01|".

(** A lower-casing table without entries, for running ASCII examples. *)
Definition no_case_table : str -> str := fun s => s.

(** A random source: the draws 0, 1, 2, ... *)
Definition counting_rng : rng := fun i => i.

(** ** Vocabulary of the statements *)

(** Two passwords with the same composition classes present. *)
Definition same_composition (p q : str) : Prop :=
  re_search is_lower p = re_search is_lower q
  /\ re_search is_upper p = re_search is_upper q
  /\ re_search is_digit p = re_search is_digit q
  /\ re_search is_special p = re_search is_special q.

(** The point a composition flag earns. *)
Definition point (flag : bool) : Z := if flag then 1 else 0.

(** The message a failed check appends. *)
Definition missing (flag : bool) (msg : string) : list string :=
  if flag then [] else [msg].

(** The union of the four classes the generator draws from. *)
Definition gen_all_chars (exclude_similar : bool) : str :=
  gen_lowercase exclude_similar ++ gen_uppercase exclude_similar
  ++ gen_digits exclude_similar ++ gen_special exclude_similar.

(** * The callers *)

(** ** Console output *)

(** A piece of a printed line: literal text or a [str] value spliced in as
    it is, and the formatted values. *)
Inductive piece :=
| Lit (s : string)
| Chars (s : str)
| Int (z : Z)
| Int2 (z : Z)
| Float2 (v : R)
| Crack (ct : crack_time_str).

(** [Int z] is an int in its default format, [Int2 z] one padded to two
    columns, [Float2 v] a float with two decimal places and [Crack ct] the
    string [_estimate_crack_time] returned. *)
Definition line := list piece.

(** What ends a caller early: a missing dictionary key, or an exception of
    the checker or the generator passing through. *)
Inductive io_exn :=
| KeyError (key : string)
| Uncaught (e : exn).

(** The random source and the lines printed so far. *)
Record world := { w_rng : rng; w_out : list line }.

Definition IO (A : Type) : Type := world -> (io_exn + A) * world.

Definition io_ret {A} (a : A) : IO A := fun w => (inr a, w).

Definition io_bind {A B} (m : IO A) (k : A -> IO B) : IO B :=
  fun w => match m w with
           | (inr a, w') => k a w'
           | (inl e, w') => (inl e, w')
           end.

Notation "x <~ m ;; k" := (io_bind m (fun x => k))
  (at level 61, m at next level, right associativity).

Notation "m ;;; k" := (io_bind m (fun _ => k))
  (at level 61, right associativity).

Definition throw {A} (e : io_exn) : IO A := fun w => (inl e, w).

Definition print (l : line) : IO unit :=
  fun w => (inr tt, {| w_rng := w_rng w; w_out := w_out w ++ [l] |}).

(** A call that draws no random number. *)
Definition call {A} (r : result A) : IO A :=
  match r with
  | Ok a => io_ret a
  | Raise e => throw (Uncaught e)
  end.

(** A call that draws from the random source. *)
Definition draw {A} (m : M A) : IO A :=
  fun w => match m (w_rng w) with
           | Ok (a, g) => (inr a, {| w_rng := g; w_out := w_out w |})
           | Raise e => (inl (Uncaught e), w)
           end.

Definition when (b : bool) (m : IO unit) : IO unit :=
  if b then m else io_ret tt.

Fixpoint for_each {A} (l : list A) (body : A -> IO unit) : IO unit :=
  match l with
  | [] => io_ret tt
  | x :: l' => body x ;;; for_each l' body
  end.

(** [result[key]] for the keys a branch may leave out. *)
Definition getitem {A} (key : string) (value : option A) : IO A :=
  match value with
  | Some a => io_ret a
  | None => throw (KeyError key)
  end.

(** The line feed, and [s * n]. *)
Definition nl : string := String "010"%char EmptyString.

Fixpoint str_repeat (s : string) (n : nat) : string :=
  match n with
  | O => EmptyString
  | S n' => (s ++ str_repeat s n')%string
  end.

(** [enumerate(l, start)] *)
Fixpoint enumerate {A} (start : Z) (l : list A) : list (Z * A) :=
  match l with
  | [] => []
  | x :: l' => (start, x) :: enumerate (start + 1) l'
  end.

Section Callers.

Variable unicode_lower : str -> str.

(** ** [main] of [password_checker.py] *)

(** Choice 1, from the stripped password on. *)
Definition main_check (password : str) : IO unit :=
  match password with
  | [] => io_ret tt
  | _ =>
      result <~ call (check_password_strength unicode_lower password) ;;
      print [Lit (nl ++ "Password Analysis:")] ;;;
      print [Lit "Strength: "; Lit (strength result)] ;;;
      print [Lit "Score: "; Int (score result); Lit "/6"] ;;;
      e <~ getitem "entropy" (entropy result) ;;
      print [Lit "Entropy: "; Float2 e; Lit " bits"] ;;;
      ct <~ getitem "crack_time" (crack_time result) ;;
      print [Lit "Estimated crack time: "; Crack ct] ;;;
      checks <~ getitem "checks" (checks result) ;;
      (print [Lit (nl ++ "Requirements met:")] ;;;
       when (chk_length checks)
         (print [Lit "  ✔ Minimum length (8+ characters)"]) ;;;
       when (chk_uppercase checks)
         (print [Lit "  ✔ Contains uppercase letters"]) ;;;
       when (chk_lowercase checks)
         (print [Lit "  ✔ Contains lowercase letters"]) ;;;
       when (chk_numbers checks) (print [Lit "  ✔ Contains numbers"]) ;;;
       when (chk_special checks)
         (print [Lit "  ✔ Contains special characters"])) ;;;
      when (negb (Nat.eqb (List.length (issues result)) 0))
        (print [Lit (nl ++ "Issues found:")] ;;;
         for_each (issues result) (fun issue => print [Lit "  • "; Lit issue])) ;;;
      recs <~ getitem "recommendations" (recommendations result) ;;
      when (negb (Nat.eqb (List.length recs) 0))
        (print [Lit (nl ++ "Recommendations:")] ;;;
         for_each recs (fun rec => print [Lit "  • "; Lit rec])) ;;;
      when (String.eqb (strength result) "Very Weak")
        (print [Lit (nl ++ "WARNING: This password is extremely weak!")] ;;;
         print [Lit "   Using common passwords makes you vulnerable to:"] ;;;
         print [Lit "   • Dictionary attacks"] ;;;
         print [Lit "   • Credential stuffing"] ;;;
         print [Lit "   • Social engineering"])
  end.

(** Choice 2 up to the clipboard question; [length] is the value of
    [int(...)], [None] when it raised [ValueError]. *)
Definition main_generate (length : option Z) (exclude_similar : bool)
    : IO unit :=
  match length with
  | Some length =>
      let length := Z.max 8 (Z.min 50 length) in
      password <~ draw (generate_strong_password length exclude_similar) ;;
      print [Lit (nl ++ "Generated Password:")] ;;;
      print [Lit "Password: "; Chars password] ;;;
      print [Lit "Length: "; Int (len password); Lit " characters"] ;;;
      result <~ call (check_password_strength unicode_lower password) ;;
      print [Lit "Strength: "; Lit (strength result)] ;;;
      e <~ getitem "entropy" (entropy result) ;;
      print [Lit "Entropy: "; Float2 e; Lit " bits"] ;;;
      ct <~ getitem "crack_time" (crack_time result) ;;
      print [Lit "Estimated crack time: "; Crack ct]
  | None =>
      print [Lit "ERROR: Invalid length. Using default length of 16."] ;;;
      password <~ draw (generate_strong_password 16 true) ;;
      print [Lit "Generated password: "; Chars password]
  end.

(** ** [demo.py] *)

Definition test_passwords : list str := map py
  [ "123456"; "password"; "abc123"; "MyPassword"; "MyPassword123";
    "MyPassword123!"; "Kj9#mN2$pL8vX4@qR7w"; "P@ssw0rd!"; "qwertyuiop";
    "admin123"; "SecurePass2024!"; "a"; "" ]%string.

Definition mark (b : bool) : string := if b then "✅" else "❌".

(** The body of the loop of [demo_password_analysis]. *)
Definition demo_analyse (i : Z) (password : str) : IO unit :=
  print [Lit nl; Int2 i; Lit ". Testing: '"; Chars password; Lit "'"] ;;;
  print [Lit (str_repeat "-" 40)] ;;;
  result <~ call (check_password_strength unicode_lower password) ;;
  print [Lit "Strength: "; Lit (strength result)] ;;;
  print [Lit "Score: "; Int (score result); Lit "/6"] ;;;
  e <~ getitem "entropy" (entropy result) ;;
  print [Lit "Entropy: "; Float2 e; Lit " bits"] ;;;
  ct <~ getitem "crack_time" (crack_time result) ;;
  print [Lit "Crack Time: "; Crack ct] ;;;
  checks <~ getitem "checks" (checks result) ;;
  (print [Lit "Requirements:"] ;;;
   print [Lit "  Length (8+): "; Lit (mark (chk_length checks))] ;;;
   print [Lit "  Uppercase: "; Lit (mark (chk_uppercase checks))] ;;;
   print [Lit "  Lowercase: "; Lit (mark (chk_lowercase checks))] ;;;
   print [Lit "  Numbers: "; Lit (mark (chk_numbers checks))] ;;;
   print [Lit "  Special: "; Lit (mark (chk_special checks))]) ;;;
  when (negb (Nat.eqb (List.length (issues result)) 0))
    (print [Lit "Issues:"] ;;;
     for_each (issues result) (fun issue => print [Lit "  • "; Lit issue])) ;;;
  recs <~ getitem "recommendations" (recommendations result) ;;
  when (negb (Nat.eqb (List.length recs) 0))
    (print [Lit "Recommendations:"] ;;;
     for_each recs (fun rec => print [Lit "  • "; Lit rec])) ;;;
  when (String.eqb (strength result) "Very Weak")
    (print [Lit "⚠️  WARNING: This password is extremely weak!"]).

(** The loop of [demo_password_analysis] over a list of passwords. *)
Definition demo_analyse_all (passwords : list str) : IO unit :=
  for_each (enumerate 1 passwords)
    (fun '(i, password) => demo_analyse i password).

Definition demo_password_analysis : IO unit :=
  print [Lit "🔐 Password Strength Checker - Demo"] ;;;
  print [Lit (str_repeat "=" 50)] ;;;
  demo_analyse_all test_passwords.

(** One round of the loop of [demo_password_generation]. *)
Definition demo_generate (length : Z) : IO unit :=
  print [Lit nl; Lit "Generating "; Int length; Lit "-character password:"] ;;;
  password <~ draw (generate_strong_password length true) ;;
  print [Lit "Password: "; Chars password] ;;;
  result <~ call (check_password_strength unicode_lower password) ;;
  e <~ getitem "entropy" (entropy result) ;;
  print [Lit "Strength: "; Lit (strength result); Lit " | Entropy: ";
         Float2 e; Lit " bits"] ;;;
  ct <~ getitem "crack_time" (crack_time result) ;;
  print [Lit "Crack Time: "; Crack ct].

Definition demo_password_generation : IO unit :=
  print [Lit (nl ++ nl ++ "🔑 Password Generation Demo")] ;;;
  print [Lit (str_repeat "=" 50)] ;;;
  for_each [8; 12; 16; 20; 32] demo_generate ;;;
  print [Lit (nl ++ "Generating 16-character password (including similar chars):")] ;;;
  password <~ draw (generate_strong_password 16 false) ;;
  print [Lit "Password: "; Chars password] ;;;
  result <~ call (check_password_strength unicode_lower password) ;;
  e <~ getitem "entropy" (entropy result) ;;
  print [Lit "Strength: "; Lit (strength result); Lit " | Entropy: ";
         Float2 e; Lit " bits"].

End Callers.

(** ** Vocabulary of the callers' statements *)

(** A run of [m] prints only lines satisfying [P]; it ends with a value
    satisfying [Q] or with an exception satisfying [E]. *)
Definition hoare {A} (m : IO A) (P : line -> Prop) (Q : A -> Prop)
    (E : io_exn -> Prop) : Prop :=
  forall w,
    exists new,
      w_out (snd (m w)) = w_out w ++ new
      /\ Forall P new
      /\ match fst (m w) with
         | inr a => Q a
         | inl e => E e
         end.

(** A password that reaches the scoring path and whose crack time is in
    range: the ones [check_password_strength] gives a full report. *)
Definition scorable (unicode_lower : str -> str) (p : str) : Prop :=
  p <> []
  /\ str_in (lower unicode_lower p) common_passwords = false
  /\ charset_size p ^ len p < 2 ^ 1025.

(** A line showing a strength next to the entropy, as the generation demo
    prints it. *)
Definition strength_entropy_line (s : string) (e : R) : line :=
  [Lit "Strength: "; Lit s; Lit " | Entropy: "; Float2 e; Lit " bits"].

(** The first line of the warning block of [main]. *)
Definition warning_line : line :=
  [Lit (nl ++ "WARNING: This password is extremely weak!")].

(** The warning line of the demo. *)
Definition demo_warning_line : line :=
  [Lit "⚠️  WARNING: This password is extremely weak!"].

(** * Properties *)

(** ** Logarithms of integer powers *)

Section Logarithms.

Local Open Scope R_scope.

Lemma ln2_pos : 0 < ln 2.
Proof. pose proof ln_lt_2. lra. Qed.

Lemma log2_1 : log2 1 = 0.
Proof. unfold log2. rewrite ln_1. lra. Qed.

Lemma log2_le (x y : R) : 0 < x -> x <= y -> log2 x <= log2 y.
Proof.
  intros Hx [Hlt | ->]; [| lra].
  unfold log2. apply Rmult_le_compat_r.
  - left. apply Rinv_0_lt_compat, ln2_pos.
  - left. now apply ln_increasing.
Qed.

Lemma log2_lt (x y : R) : 0 < x -> x < y -> log2 x < log2 y.
Proof.
  intros Hx Hlt. unfold log2. apply Rmult_lt_compat_r.
  - apply Rinv_0_lt_compat, ln2_pos.
  - now apply ln_increasing.
Qed.

Lemma log2_nonneg (x : R) : 1 <= x -> 0 <= log2 x.
Proof. intros H. rewrite <- log2_1. apply log2_le; lra. Qed.

Lemma log2_pow_nat (c : Z) (n : nat) :
  (0 < c)%Z -> log2 (IZR (c ^ Z.of_nat n)) = INR n * log2 (IZR c).
Proof.
  intros Hc. rewrite <- pow_IZR. unfold log2.
  rewrite ln_pow by (now apply IZR_lt). field.
  pose proof ln2_pos. lra.
Qed.

Lemma log2_two_pow (k : Z) : (0 <= k)%Z -> log2 (IZR (2 ^ k)) = IZR k.
Proof.
  intros Hk. rewrite <- (Z2Nat.id k) at 1 by exact Hk.
  rewrite log2_pow_nat by lia.
  rewrite INR_IZR_INZ, Z2Nat.id by exact Hk.
  unfold log2. field. pose proof ln2_pos. lra.
Qed.

(** An integer of at least [k + 1] bits has a base-2 logarithm of at least [k]. *)
Lemma log2_lower (n k : Z) :
  (0 <= k)%Z -> (2 ^ k <= n)%Z -> IZR k <= log2 (IZR n).
Proof.
  intros Hk H. rewrite <- (log2_two_pow k Hk). apply log2_le.
  - apply IZR_lt. lia.
  - now apply IZR_le.
Qed.

Lemma log2_upper (n k : Z) :
  (0 <= k)%Z -> (0 < n < 2 ^ k)%Z -> log2 (IZR n) < IZR k.
Proof.
  intros Hk [H0 H]. rewrite <- (log2_two_pow k Hk). apply log2_lt.
  - now apply IZR_lt.
  - now apply IZR_lt.
Qed.

End Logarithms.

(** ** The entropy estimate *)

Lemma charset_size_cases (pw : str) :
  charset_size pw = 0 \/ 10 <= charset_size pw <= 94.
Proof.
  unfold charset_size.
  destruct (re_search is_lower pw), (re_search is_upper pw),
    (re_search is_digit pw), (re_search is_special pw); lia.
Qed.

Lemma charset_size_empty : charset_size [] = 0.
Proof. reflexivity. Qed.

Lemma entropy_closed_form (pw : str) :
  _calculate_entropy pw =
  if charset_size pw =? 0 then 0%R
  else (IZR (len pw) * log2 (IZR (charset_size pw)))%R.
Proof.
  destruct pw as [| c pw'] eqn:E; [reflexivity |]. rewrite <- E.
  assert (_calculate_entropy pw =
          if charset_size pw =? 0 then 0%R
          else log2 (IZR (charset_size pw ^ len pw))) as -> by now subst.
  destruct (charset_size pw =? 0) eqn:Hz; [reflexivity |].
  apply Z.eqb_neq in Hz. unfold len.
  rewrite log2_pow_nat, INR_IZR_INZ; [reflexivity |].
  destruct (charset_size_cases pw); lia.
Qed.

(** C3: the entropy of a password is its length times the base-2 logarithm
    of its charset size, the charset size being 26 for a lowercase letter
    present, 26 for an uppercase letter, 10 for a digit and 32 for a special
    character; without any class (the empty password included) it is 0.  So
    the entropy of the empty password is 0 and that of aaaaaaaa is
    8 * log2 26. *)
Theorem entropy_is_length_times_log2_charset :
  forall pw : str,
    let present (cls : char -> bool) (size : Z) :=
      if re_search cls pw then size else 0 in
    let charsetSize :=
      present is_lower 26 + present is_upper 26
      + present is_digit 10 + present is_special 32 in
    _calculate_entropy pw =
      (if charsetSize =? 0 then 0 else IZR (len pw) * log2 (IZR charsetSize))%R
    /\ _calculate_entropy [] = 0%R
    /\ _calculate_entropy (py "aaaaaaaa") = (8 * log2 26)%R.
Proof.
  intros pw present charsetSize. split; [| split].
  - apply (entropy_closed_form pw).
  - reflexivity.
  - rewrite entropy_closed_form. reflexivity.
Qed.

Lemma entropy_nonneg (pw : str) : (0 <= _calculate_entropy pw)%R.
Proof.
  rewrite entropy_closed_form.
  destruct (charset_size pw =? 0) eqn:Hz; [lra |].
  apply Z.eqb_neq in Hz.
  apply Rmult_le_pos.
  - apply IZR_le. unfold len. lia.
  - apply log2_nonneg, IZR_le. destruct (charset_size_cases pw); lia.
Qed.

(** C9: the entropy is never negative, and of two passwords with the same
    composition classes present the longer has at least the entropy of the
    shorter. *)
Theorem entropy_nonneg_and_monotone_in_length :
  forall p q : str,
    (0 <= _calculate_entropy p)%R
    /\ (same_composition p q -> len p <= len q ->
        (_calculate_entropy p <= _calculate_entropy q)%R).
Proof.
  intros p q. split; [apply entropy_nonneg |].
  intros (Hl & Hu & Hd & Hs) Hlen.
  assert (charset_size p = charset_size q) as Hc
    by (unfold charset_size; now rewrite Hl, Hu, Hd, Hs).
  rewrite !entropy_closed_form, Hc.
  destruct (charset_size q =? 0) eqn:Hz; [lra |].
  apply Z.eqb_neq in Hz.
  apply Rmult_le_compat_r.
  - apply log2_nonneg, IZR_le. destruct (charset_size_cases q); lia.
  - now apply IZR_le.
Qed.

Lemma entropy_monotone_witness :
  (0 <= _calculate_entropy (py "aaaaaaaa"))%R
  /\ (_calculate_entropy (py "aaaaaaaa")
      <= _calculate_entropy (py "zzzzzzzzzzzz"))%R.
Proof.
  destruct (entropy_nonneg_and_monotone_in_length
              (py "aaaaaaaa") (py "zzzzzzzzzzzz")) as [H0 Hmono].
  split; [exact H0 |].
  apply Hmono.
  - repeat split; reflexivity.
  - vm_compute. discriminate.
Defined.

(** ** The crack-time projection *)

Lemma float_pow2_in_range (x : R) :
  (x < 1024)%R -> float_pow2 x = Ok (Rpower 2 x).
Proof.
  intros H. unfold float_pow2. destruct (Rle_dec 1024 x); [lra | reflexivity].
Qed.

Lemma float_pow2_overflow (x : R) :
  (1024 <= x)%R -> float_pow2 x = Raise OverflowError.
Proof.
  intros H. unfold float_pow2. destruct (Rle_dec 1024 x); [reflexivity | lra].
Qed.

Lemma crack_time_instant (e : R) :
  (e <= 0)%R -> _estimate_crack_time e = Ok Instant.
Proof.
  intros H. unfold _estimate_crack_time.
  destruct (Rle_dec e 0); [reflexivity | lra].
Qed.

Lemma crack_time_overflow (e : R) :
  (1025 <= e)%R -> _estimate_crack_time e = Raise OverflowError.
Proof.
  intros H. unfold _estimate_crack_time.
  destruct (Rle_dec e 0); [lra |].
  rewrite float_pow2_overflow by lra. reflexivity.
Qed.



Lemma crack_time_returns (e : R) :
  (e < 1025)%R -> exists ct, _estimate_crack_time e = Ok ct.
Proof.
  intros H. unfold _estimate_crack_time.
  destruct (Rle_dec e 0); [now eexists |].
  rewrite float_pow2_in_range by lra. cbv zeta.
  repeat (match goal with |- context [Rlt_dec ?a ?b] => destruct (Rlt_dec a b) end;
          [now eexists |]).
  now eexists.
Qed.

(** C4: at an entropy of 2000 bits the projection raises [OverflowError]
    where a number of years is expected: the float power [2 ** 1999.0] is
    out of range. *)
Theorem crack_time_overflows_at_2000 :
  _estimate_crack_time 2000 = Raise OverflowError
  /\ _estimate_crack_time 0 = Ok Instant.
Proof.
  split.
  - apply crack_time_overflow. lra.
  - apply crack_time_instant. lra.
Qed.

(** The entropy of a password in terms of the integer [charset ** len]. *)
Lemma entropy_in_range (pw : str) :
  charset_size pw ^ len pw < 2 ^ 1025 -> (_calculate_entropy pw < 1025)%R.
Proof.
  intros H. destruct pw as [| c pw'] eqn:E; [simpl; lra |]. rewrite <- E in *.
  assert (_calculate_entropy pw =
          if charset_size pw =? 0 then 0%R
          else log2 (IZR (charset_size pw ^ len pw))) as -> by now subst.
  destruct (charset_size pw =? 0) eqn:Hz; [lra |].
  apply Z.eqb_neq in Hz.
  apply log2_upper; [lia |]. split.
  - apply Z.pow_pos_nonneg; [| unfold len; lia].
    destruct (charset_size_cases pw); lia.
  - exact H.
Qed.

Lemma entropy_out_of_range (pw : str) :
  2 ^ 1025 <= charset_size pw ^ len pw -> (1025 <= _calculate_entropy pw)%R.
Proof.
  intros H. destruct pw as [| c pw'] eqn:E.
  - exfalso. vm_compute in H. now apply H.
  - rewrite <- E in *.
    assert (_calculate_entropy pw =
            if charset_size pw =? 0 then 0%R
            else log2 (IZR (charset_size pw ^ len pw))) as -> by now subst.
    destruct (charset_size pw =? 0) eqn:Hz.
    + apply Z.eqb_eq in Hz. rewrite Hz in H.
      rewrite Z.pow_0_l in H; [exfalso; revert H; vm_compute; congruence |].
      subst pw. unfold len. simpl List.length. lia.
    + apply log2_lower; [lia | exact H].
Qed.

(** ** The strength report *)

Lemma str_eqb_eq (a b : str) : str_eqb a b = true <-> a = b.
Proof.
  revert b. induction a as [| x a IH]; intros [| y b]; simpl;
    try (split; [discriminate | congruence]); [tauto |].
  rewrite andb_true_iff, N.eqb_eq, IH. split; [intros []; congruence |].
  intros [= -> ->]. tauto.
Qed.

Lemma str_in_In (x : str) (s : list str) : str_in x s = true <-> In x s.
Proof.
  unfold str_in. rewrite existsb_exists. split.
  - intros (y & Hy & E). apply str_eqb_eq in E. now subst.
  - intros H. exists x. split; [exact H | now apply str_eqb_eq].
Qed.

Lemma lower_ascii (unicode_lower : str -> str) (s : str) :
  forallb is_ascii s = true -> lower unicode_lower s = map ascii_lower s.
Proof. intros H. unfold lower. now rewrite H. Qed.

Section Reports.

Variable unicode_lower : str -> str.

Abbreviation lower := (lower unicode_lower).
Abbreviation check_password_strength :=
  (check_password_strength unicode_lower).

Lemma common_nonempty (pw : str) :
  str_in (lower pw) common_passwords = true -> pw <> [].
Proof. intros H ->. vm_compute in H. discriminate. Qed.

Lemma check_nonempty (pw : str) :
  pw <> [] ->
  check_password_strength pw =
  if str_in (lower pw) common_passwords then Ok common_report
  else match _estimate_crack_time (_calculate_entropy pw) with
       | Raise e => Raise e
       | Ok ct =>
           Ok (scored_report pw (score_password pw) (_calculate_entropy pw) ct)
       end.
Proof. destruct pw; [congruence | reflexivity]. Qed.

Lemma check_scored (pw : str) :
  pw <> [] -> str_in (lower pw) common_passwords = false ->
  charset_size pw ^ len pw < 2 ^ 1025 ->
  exists ct,
    check_password_strength pw =
    Ok (scored_report pw (score_password pw) (_calculate_entropy pw) ct).
Proof.
  intros Hne Hc Hr. rewrite check_nonempty, Hc by exact Hne.
  destruct (crack_time_returns (_calculate_entropy pw)) as [ct Hct].
  - now apply entropy_in_range.
  - exists ct. now rewrite Hct.
Qed.

Lemma check_overflow (pw : str) :
  pw <> [] -> str_in (lower pw) common_passwords = false ->
  2 ^ 1025 <= charset_size pw ^ len pw ->
  check_password_strength pw = Raise OverflowError.
Proof.
  intros Hne Hc Hr. rewrite check_nonempty, Hc by exact Hne.
  rewrite crack_time_overflow; [reflexivity |].
  now apply entropy_out_of_range.
Qed.

Lemma score_formula (pw : str) :
  let s := score_password pw in
  sc_score s =
    (if 12 <=? len pw then 2 else if 8 <=? len pw then 1 else 0)
    + point (re_search is_upper pw) + point (re_search is_lower pw)
    + point (re_search is_digit pw) + point (re_search is_special pw)
  /\ sc_issues s =
       missing (8 <=? len pw) "Password is too short (minimum 8 characters)"
       ++ missing (re_search is_upper pw) "No uppercase letters"
       ++ missing (re_search is_lower pw) "No lowercase letters"
       ++ missing (re_search is_digit pw) "No numbers"
       ++ missing (re_search is_special pw) "No special characters"
  /\ sc_recommendations s =
       missing (8 <=? len pw)
         "Increase password length to at least 8 characters"
       ++ missing (re_search is_upper pw) "Add uppercase letters (A-Z)"
       ++ missing (re_search is_lower pw) "Add lowercase letters (a-z)"
       ++ missing (re_search is_digit pw) "Add numbers (0-9)"
       ++ missing (re_search is_special pw)
            "Add special characters (!@#$%^&*...)"
  /\ 0 <= sc_score s <= 6.
Proof.
  intros s. subst s. unfold score_password, point, missing.
  rewrite Z.geb_leb.
  destruct (Z.ltb_spec (len pw) 8), (Z.leb_spec 12 (len pw)),
    (Z.leb_spec 8 (len pw)); try lia;
    destruct (re_search is_upper pw), (re_search is_lower pw),
      (re_search is_digit pw), (re_search is_special pw);
    cbn; repeat split; lia.
Qed.

(** C1: a non-empty password outside the common list is scored from 0 with
    2 points for a length of 12 or more, 1 for a length from 8 to 11 and
    none below 8 (a too-short issue and recommendation instead), and 1 point
    for each of the uppercase, lowercase, digit and special flags, a missing
    flag adding its issue and recommendation; the score is at most 6, and
    the report carries this score unless the crack-time step raises.
    MyPassword123! gets score 6 and strength Strong. *)
Theorem score_is_length_points_plus_flags :
  (forall pw : str,
     pw <> [] -> str_in (lower pw) common_passwords = false ->
     let s := score_password pw in
     sc_score s =
       (if 12 <=? len pw then 2 else if 8 <=? len pw then 1 else 0)
       + point (re_search is_upper pw) + point (re_search is_lower pw)
       + point (re_search is_digit pw) + point (re_search is_special pw)
     /\ sc_issues s =
          missing (8 <=? len pw) "Password is too short (minimum 8 characters)"
          ++ missing (re_search is_upper pw) "No uppercase letters"
          ++ missing (re_search is_lower pw) "No lowercase letters"
          ++ missing (re_search is_digit pw) "No numbers"
          ++ missing (re_search is_special pw) "No special characters"
     /\ sc_recommendations s =
          missing (8 <=? len pw)
            "Increase password length to at least 8 characters"
          ++ missing (re_search is_upper pw) "Add uppercase letters (A-Z)"
          ++ missing (re_search is_lower pw) "Add lowercase letters (a-z)"
          ++ missing (re_search is_digit pw) "Add numbers (0-9)"
          ++ missing (re_search is_special pw)
               "Add special characters (!@#$%^&*...)"
     /\ 0 <= sc_score s <= 6
     /\ check_password_strength pw =
          match _estimate_crack_time (_calculate_entropy pw) with
          | Raise e => Raise e
          | Ok ct => Ok (scored_report pw s (_calculate_entropy pw) ct)
          end
     /\ (charset_size pw ^ len pw < 2 ^ 1025 ->
         exists r, check_password_strength pw = Ok r
                   /\ score r = sc_score s
                   /\ issues r = sc_issues s
                   /\ recommendations r = Some (sc_recommendations s)))
  /\ (exists r,
        check_password_strength (py "MyPassword123!") = Ok r
        /\ score r = 6 /\ strength r = "Strong"%string).
Proof.
  split.
  - intros pw Hne Hc s.
    destruct (score_formula pw) as (H1 & H2 & H3 & H4).
    repeat split; try assumption; try apply H4.
    + now rewrite check_nonempty, Hc.
    + intros Hr. destruct (check_scored pw Hne Hc Hr) as [ct Hct].
      eexists. split; [exact Hct |]. repeat split.
  - destruct (check_scored (py "MyPassword123!")) as [ct Hct].
    + discriminate.
    + reflexivity.
    + reflexivity.
    + eexists. split; [exact Hct |]. split; reflexivity.
Qed.

(** C2: on the numeric scoring path the returned strength is determined by
    the returned score: Weak up to 2, Moderate for 3 and 4, Strong from 5;
    it is never Very Weak, which only a password that is empty or in the
    common list can get. *)
Theorem strength_is_function_of_score :
  forall (pw : str) (r : report),
    check_password_strength pw = Ok r ->
    (pw <> [] -> str_in (lower pw) common_passwords = false ->
     (score r <= 2 -> strength r = "Weak"%string)
     /\ (3 <= score r <= 4 -> strength r = "Moderate"%string)
     /\ (5 <= score r -> strength r = "Strong"%string)
     /\ strength r <> "Very Weak"%string)
    /\ (strength r = "Very Weak"%string ->
        pw = [] \/ str_in (lower pw) common_passwords = true).
Proof.
  intros pw r Hr. destruct pw as [| c pw'] eqn:E.
  - split; [congruence | auto].
  - rewrite <- E in *. assert (pw <> []) as Hne by (subst; discriminate).
    rewrite check_nonempty in Hr by exact Hne.
    destruct (str_in (lower pw) common_passwords); [split; [congruence | auto] |].
    destruct (_estimate_crack_time (_calculate_entropy pw)) as [ct |];
      [| discriminate].
    injection Hr as <-. cbn [strength score scored_report].
    unfold strength_of_score.
    split.
    + intros _ _.
      destruct (Z.leb_spec (sc_score (score_password pw)) 2),
        (Z.leb_spec (sc_score (score_password pw)) 4);
        repeat split; intros; try lia; try reflexivity; discriminate.
    + destruct (sc_score (score_password pw) <=? 2),
        (sc_score (score_password pw) <=? 4); discriminate.
Qed.

(** C5: a password whose lower-casing is in the common list gets strength
    Very Weak, score 0, one issue and one recommendation, and a report
    without entropy, crack time or checks: nothing further is computed. *)
Theorem common_password_short_circuit :
  forall pw : str,
    str_in (lower pw) common_passwords = true ->
    exists r,
      check_password_strength pw = Ok r
      /\ strength r = "Very Weak"%string
      /\ score r = 0
      /\ issues r = ["Password is in the top 1000 common passwords list"%string]
      /\ recommendations r =
           Some ["Choose a unique password that's not commonly used"%string]
      /\ entropy r = None
      /\ crack_time r = None
      /\ checks r = None.
Proof.
  intros pw Hc. exists common_report.
  rewrite check_nonempty, Hc by (now apply common_nonempty).
  repeat split.
Qed.

(** C6: abc123 is an entry of the common list, so the report is the
    short-circuit one, strength Very Weak and score 0.  Its length 6 is
    below 8, it has lowercase letters and digits and neither uppercase
    letters nor special characters: the numeric scoring, which it never
    reaches, would give 2 and hence Weak. *)
Theorem abc123_is_common :
  check_password_strength (py "abc123") = Ok common_report
  /\ strength common_report = "Very Weak"%string
  /\ score common_report = 0
  /\ str_in (py "abc123") common_passwords = true
  /\ len (py "abc123") = 6
  /\ re_search is_lower (py "abc123") = true
  /\ re_search is_digit (py "abc123") = true
  /\ re_search is_upper (py "abc123") = false
  /\ re_search is_special (py "abc123") = false
  /\ sc_score (score_password (py "abc123")) = 2
  /\ sc_issues (score_password (py "abc123")) =
       [ "Password is too short (minimum 8 characters)";
         "No uppercase letters"; "No special characters" ]%string
  /\ strength_of_score 2 = "Weak"%string.
Proof. repeat split. Qed.


(** C8: a password of 300 letters a makes the checker raise
    [OverflowError]: its entropy is the logarithm of [26 ** 300], beyond the
    1025 bits from which the crack-time step overflows. *)
Theorem long_password_raises :
  check_password_strength (repeat 97%N 300) = Raise OverflowError.
Proof.
  apply check_overflow.
  - discriminate.
  - rewrite lower_ascii by reflexivity. vm_compute. reflexivity.
  - apply Z.leb_le. vm_compute. reflexivity.
Qed.

End Reports.

(** Letters outside ASCII count neither as uppercase nor as lowercase. *)
Theorem non_ascii_not_a_letter :
  forall pw : str,
    Forall (fun c => is_ascii c = false) pw ->
    re_search is_upper pw = false /\ re_search is_lower pw = false.
Proof.
  intros pw H. unfold re_search. induction H as [| c pw Hc _ IH]; [auto |].
  simpl. destruct IH as [-> ->]. rewrite !orb_false_r.
  unfold is_ascii in Hc. apply N.ltb_ge in Hc.
  unfold is_upper, is_lower, in_range.
  split; apply andb_false_iff; right; apply N.leb_gt; lia.
Qed.

(** A decimal digit outside ASCII does count as a digit: U+0663, the
    Arabic-Indic digit three, sets the digit flag, earns its point and adds
    10 to the charset size. *)
Theorem non_ascii_digit_counts :
  is_ascii 0x663%N = false
  /\ has_digit (score_password [0x663%N]) = true
  /\ sc_score (score_password [0x663%N]) = 1
  /\ charset_size [0x663%N] = 10.
Proof. repeat split. Qed.

(** ** The random source and the shuffle *)

Lemma bind_ok {A B} (m : M A) (k : A -> M B) (g g' : rng) (a : A) :
  m g = Ok (a, g') -> bind m k g = k a g'.
Proof. intros H. unfold bind. now rewrite H. Qed.

Lemma choice_spec (seq : str) (g : rng) :
  seq <> [] ->
  exists c, choice seq g = Ok (c, fun i => g (S i)) /\ In c seq.
Proof.
  intros Hne. destruct seq as [| h t] eqn:E; [congruence |]. rewrite <- E.
  assert (choice seq =
          (k <- randbelow (List.length seq) ;;
           match nth_error seq k with
           | Some c => ret c
           | None => raise IndexError
           end)) as -> by now subst.
  unfold bind, randbelow.
  assert (g 0%nat mod List.length seq < List.length seq)%nat as Hk
    by (apply Nat.mod_upper_bound; subst; discriminate).
  destruct (nth_error seq (g 0%nat mod List.length seq)) as [c |] eqn:Hn.
  - exists c. split; [reflexivity |]. eapply nth_error_In; eassumption.
  - apply nth_error_None in Hn. lia.
Qed.


Lemma nth_error_set_nth_eq {A} (i : nat) (v : A) (l : list A) :
  (i < List.length l)%nat -> nth_error (set_nth i v l) i = Some v.
Proof.
  revert i. induction l as [| h t IH]; intros [| i] H; simpl in *;
    try lia; [reflexivity |].
  apply IH. lia.
Qed.

Lemma nth_error_set_nth_neq {A} (i j : nat) (v : A) (l : list A) :
  i <> j -> nth_error (set_nth i v l) j = nth_error l j.
Proof.
  revert i j. induction l as [| h t IH]; intros [| i] [| j] H; simpl;
    try reflexivity; try congruence.
  apply IH. congruence.
Qed.

(** Overwriting a cell trades the old content for the new. *)
Lemma set_nth_perm {A} (i : nat) (v a : A) (l : list A) :
  nth_error l i = Some a -> Permutation (v :: l) (a :: set_nth i v l).
Proof.
  revert i. induction l as [| h t IH]; intros [| i] H; simpl in *;
    try discriminate.
  - injection H as ->. apply perm_swap.
  - apply IH in H.
    transitivity (h :: v :: t); [apply perm_swap |].
    transitivity (h :: a :: set_nth i v t); [now apply perm_skip |].
    apply perm_swap.
Qed.

Lemma swap_spec (x : str) (i j : nat) (g : rng) :
  (i < List.length x)%nat -> (j < List.length x)%nat ->
  exists y, swap x i j g = Ok (y, g) /\ Permutation x y.
Proof.
  intros Hi Hj. unfold swap.
  destruct (nth_error x j) as [xj |] eqn:Ej;
    [| apply nth_error_None in Ej; lia].
  destruct (nth_error x i) as [xi |] eqn:Ei;
    [| apply nth_error_None in Ei; lia].
  eexists. split; [reflexivity |].
  apply (Permutation_cons_inv (a := xj)).
  transitivity (xi :: set_nth i xj x); [now apply set_nth_perm |].
  apply set_nth_perm.
  destruct (Nat.eq_dec i j) as [-> | Hne].
  - now apply nth_error_set_nth_eq.
  - now rewrite nth_error_set_nth_neq.
Qed.

Lemma shuffle_from_spec (i : nat) :
  forall (x : str) (g : rng),
    (i < List.length x)%nat \/ i = O ->
    exists y g', shuffle_from i x g = Ok (y, g') /\ Permutation x y.
Proof.
  induction i as [| i IH]; intros x g Hi.
  - exists x, g. split; [reflexivity | apply Permutation_refl].
  - destruct Hi as [Hi | Hi]; [| discriminate].
    cbn [shuffle_from].
    set (j := (g 0%nat mod (S i + 1))%nat).
    assert (j < S i + 1)%nat as Hj by (apply Nat.mod_upper_bound; lia).
    destruct (swap_spec x (S i) j (fun k => g (S k))) as (y & Hy & Py);
      [lia | lia |].
    destruct (IH y (fun k => g (S k))) as (z & g' & Hz & Pz).
    { left. rewrite <- (Permutation_length Py). lia. }
    exists z, g'. split; [| now transitivity y].
    unfold bind at 1. unfold randbelow. fold j.
    now rewrite (bind_ok _ _ _ _ _ Hy).
Qed.

Lemma shuffle_spec (x : str) (g : rng) :
  exists y g', shuffle x g = Ok (y, g') /\ Permutation x y.
Proof.
  apply shuffle_from_spec. destruct x; [right; reflexivity | left; simpl; lia].
Qed.

Lemma fill_spec (all_chars : str) :
  all_chars <> [] ->
  forall (n : nat) (password : str) (g : rng),
    exists rest g',
      fill n all_chars password g = Ok (password ++ rest, g')
      /\ Forall (fun c => In c all_chars) rest
      /\ List.length rest = n.
Proof.
  intros Hne. induction n as [| n IH]; intros password g.
  - exists [], g. rewrite app_nil_r. repeat split. constructor.
  - destruct (choice_spec all_chars g Hne) as (c & Hc & Hin).
    destruct (IH (password ++ [c]) (fun i => g (S i)))
      as (rest & g' & Hf & Hall & Hlen).
    exists (c :: rest), g'. cbn [fill].
    rewrite (bind_ok _ _ _ _ _ Hc), Hf, <- app_assoc.
    repeat split; [now constructor | simpl; lia].
Qed.

(** ** The generator *)

(** What every run of the generator returns: a string of the clamped
    length, made of one character of each class and of characters of the
    four classes. *)
Lemma generate_spec (n : Z) (exclude_similar : bool) (g : rng) :
  exists s g',
    generate_strong_password n exclude_similar g = Ok (s, g')
    /\ len s = Z.max n 8
    /\ (exists c, In c s /\ In c (gen_lowercase exclude_similar))
    /\ (exists c, In c s /\ In c (gen_uppercase exclude_similar))
    /\ (exists c, In c s /\ In c (gen_digits exclude_similar))
    /\ (exists c, In c s /\ In c (gen_special exclude_similar))
    /\ (forall c, In c s -> In c (gen_all_chars exclude_similar)).
Proof.
  unfold generate_strong_password.
  set (length := if n <? 8 then 8 else n).
  assert (length = Z.max n 8) as Hlen
    by (subst length; destruct (Z.ltb_spec n 8); lia).
  destruct (choice_spec (gen_lowercase exclude_similar) g)
    as (c1 & H1 & I1); [destruct exclude_similar; discriminate |].
  set (g1 := fun i => g (S i)) in *.
  destruct (choice_spec (gen_uppercase exclude_similar) g1)
    as (c2 & H2 & I2); [destruct exclude_similar; discriminate |].
  set (g2 := fun i => g1 (S i)) in *.
  destruct (choice_spec (gen_digits exclude_similar) g2)
    as (c3 & H3 & I3); [destruct exclude_similar; discriminate |].
  set (g3 := fun i => g2 (S i)) in *.
  destruct (choice_spec (gen_special exclude_similar) g3)
    as (c4 & H4 & I4); [destruct exclude_similar; discriminate |].
  set (g4 := fun i => g3 (S i)) in *.
  fold (gen_all_chars exclude_similar).
  destruct (fill_spec (gen_all_chars exclude_similar)
              ltac:(destruct exclude_similar; discriminate)
              (Z.to_nat (length - 4)) [c1; c2; c3; c4] g4)
    as (rest & g5 & Hf & Hall & Hrest).
  destruct (shuffle_spec ([c1; c2; c3; c4] ++ rest) g5)
    as (s & g6 & Hs & Ps).
  exists s, g6.
  rewrite (bind_ok _ _ _ _ _ H1), (bind_ok _ _ _ _ _ H2),
    (bind_ok _ _ _ _ _ H3), (bind_ok _ _ _ _ _ H4),
    (bind_ok _ _ _ _ _ Hf), (bind_ok _ _ _ _ _ Hs).
  split; [reflexivity |].
  assert (forall c, In c ([c1; c2; c3; c4] ++ rest) -> In c s) as Hin
    by (intros c; apply Permutation_in, Ps).
  split; [| repeat split].
  - unfold len. rewrite <- (Permutation_length Ps), length_app, Hrest.
    simpl List.length. lia.
  - exists c1. split; [apply Hin; simpl; auto | exact I1].
  - exists c2. split; [apply Hin; simpl; auto | exact I2].
  - exists c3. split; [apply Hin; simpl; auto | exact I3].
  - exists c4. split; [apply Hin; simpl; auto | exact I4].
  - intros c Hc. apply (Permutation_in c (Permutation_sym Ps)) in Hc.
    apply in_app_or in Hc. destruct Hc as [Hc | Hc].
    + unfold gen_all_chars. simpl in Hc.
      destruct Hc as [<- | [<- | [<- | [<- | []]]]];
        repeat (apply in_or_app; (left; assumption) || right); assumption.
    + rewrite Forall_forall in Hall. now apply Hall.
Qed.

Lemma forallb_In {A} (p : A -> bool) (l : list A) (x : A) :
  forallb p l = true -> In x l -> p x = true.
Proof. intros H. now apply forallb_forall. Qed.

Lemma existsb_In {A} (p : A -> bool) (l : list A) (x : A) :
  In x l -> p x = true -> existsb p l = true.
Proof. intros H1 H2. apply existsb_exists. now exists x. Qed.

(** C7: for every requested length and every random source the generator,
    asked to exclude similar characters, returns a string of length
    max(n, 8) (a length below 8 is raised to 8, not refused) with at least
    one lowercase letter, one uppercase letter, one digit and one special
    character, and none of the characters l, i, I, O, 0, 1 and the bar. *)
Theorem generate_length_classes_no_similar :
  forall (n : Z) (g : rng),
    exists s g',
      generate_strong_password n true g = Ok (s, g')
      /\ len s = Z.max n 8
      /\ existsb is_lower s = true
      /\ existsb is_upper s = true
      /\ existsb (in_range 48 57) s = true
      /\ existsb (fun c => char_in c (py "!@#$%^&*()_+-=[]{}|;:,.<>?")) s = true
      /\ forallb (fun c => negb (char_in c similar_chars)) s = true.
Proof.
  intros n g.
  destruct (generate_spec n true g)
    as (s & g' & Hrun & Hlen & (c1 & S1 & I1) & (c2 & S2 & I2)
        & (c3 & S3 & I3) & (c4 & S4 & I4) & Hall).
  exists s, g'. repeat split; try assumption.
  - apply (existsb_In _ _ c1 S1).
    revert I1. apply forallb_In. reflexivity.
  - apply (existsb_In _ _ c2 S2).
    revert I2. apply forallb_In. reflexivity.
  - apply (existsb_In _ _ c3 S3).
    revert I3. apply forallb_In. reflexivity.
  - apply (existsb_In _ _ c4 S4).
    revert I4.
    apply (forallb_In (fun c => char_in c (py "!@#$%^&*()_+-=[]{}|;:,.<>?"))).
    reflexivity.
  - apply forallb_forall. intros c Hc. apply Hall in Hc.
    revert Hc.
    apply (forallb_In (fun c => negb (char_in c similar_chars))).
    reflexivity.
Qed.

(** ** Checking a generated password *)

Lemma common_has_no_special (e : str) :
  In e common_passwords -> existsb is_special e = false.
Proof.
  intros H.
  apply (forallb_In (fun e => negb (existsb is_special e))) in H;
    [| reflexivity].
  now apply negb_true_iff in H.
Qed.

(** The checker on a generated password: all four flags are set and the
    password is not a common one, whatever the length, the option and the
    random source; it is rated Strong up to a length of 156 characters, and
    from 157 on the crack-time step overflows. *)
Lemma generated_password_facts (unicode_lower : str -> str) (n : Z)
    (exclude_similar : bool) (g : rng) :
  exists s g',
    generate_strong_password n exclude_similar g = Ok (s, g')
    /\ re_search is_upper s = true /\ re_search is_lower s = true
    /\ re_search is_digit s = true /\ re_search is_special s = true
    /\ str_in (lower unicode_lower s) common_passwords = false
    /\ 5 <= sc_score (score_password s)
    /\ (n <= 156 ->
        exists r, check_password_strength unicode_lower s = Ok r
                  /\ strength r = "Strong"%string /\ 5 <= score r)
    /\ (157 <= n ->
        check_password_strength unicode_lower s = Raise OverflowError).
Proof.
  destruct (generate_spec n exclude_similar g)
    as (s & g' & Hrun & Hlen & (c1 & S1 & I1) & (c2 & S2 & I2)
        & (c3 & S3 & I3) & (c4 & S4 & I4) & Hall).
  exists s, g'. split; [exact Hrun |].
  assert (re_search is_lower s = true) as Fl.
  { apply (existsb_In _ _ c1 S1). revert I1. apply forallb_In.
    destruct exclude_similar; reflexivity. }
  assert (re_search is_upper s = true) as Fu.
  { apply (existsb_In _ _ c2 S2). revert I2. apply forallb_In.
    destruct exclude_similar; reflexivity. }
  assert (re_search is_digit s = true) as Fd.
  { apply (existsb_In _ _ c3 S3). revert I3. apply forallb_In.
    destruct exclude_similar; reflexivity. }
  assert (is_special (ascii_lower c4) = true) as Hc4.
  { revert I4. apply (forallb_In (fun c => is_special (ascii_lower c))).
    destruct exclude_similar; reflexivity. }
  assert (re_search is_special s = true) as Fs.
  { apply (existsb_In _ _ c4 S4). revert I4. apply forallb_In.
    destruct exclude_similar; reflexivity. }
  assert (forallb is_ascii s = true) as Hascii.
  { apply forallb_forall. intros c Hc. apply Hall in Hc. revert Hc.
    apply forallb_In. destruct exclude_similar; reflexivity. }
  assert (str_in (lower unicode_lower s) common_passwords = false) as Hnc.
  { destruct (str_in (lower unicode_lower s) common_passwords) eqn:E;
      [| reflexivity].
    apply str_in_In, common_has_no_special in E.
    rewrite lower_ascii in E by exact Hascii.
    rewrite (existsb_In _ _ (ascii_lower c4)) in E;
      [discriminate | now apply in_map | exact Hc4]. }
  assert (s <> []) as Hne by (intros ->; inversion S1).
  assert (charset_size s = 94) as Hcs
    by (unfold charset_size; now rewrite Fl, Fu, Fd, Fs).
  destruct (score_formula s) as (Hscore & _).
  rewrite Fl, Fu, Fd, Fs in Hscore. cbn [point] in Hscore.
  assert (5 <= sc_score (score_password s)) as H5.
  { rewrite Hscore.
    destruct (Z.leb_spec 12 (len s)), (Z.leb_spec 8 (len s)); lia. }
  repeat split; try assumption.
  - intros Hn.
    destruct (check_scored unicode_lower s Hne Hnc) as [ct Hct].
    + rewrite Hcs. apply Z.le_lt_trans with (94 ^ 156); [| reflexivity].
      apply Z.pow_le_mono_r; lia.
    + eexists. split; [exact Hct |]. cbn [strength score scored_report].
      split; [| exact H5]. unfold strength_of_score.
      destruct (Z.leb_spec (sc_score (score_password s)) 2); [lia |].
      destruct (Z.leb_spec (sc_score (score_password s)) 4); [lia |].
      reflexivity.
  - intros Hn. apply check_overflow; try assumption.
    rewrite Hcs. apply Z.le_trans with (94 ^ 157).
    + apply Z.leb_le. vm_compute. reflexivity.
    + apply Z.pow_le_mono_r; lia.
Qed.

(** A generated password of a requested length up to 156 is rated Strong,
    with a score of at least 5, for either setting of the option and every
    random source. *)
Theorem generated_password_rated_strong :
  forall (unicode_lower : str -> str) (n : Z) (exclude_similar : bool)
         (g : rng),
    n <= 156 ->
    exists s g' r,
      generate_strong_password n exclude_similar g = Ok (s, g')
      /\ check_password_strength unicode_lower s = Ok r
      /\ strength r = "Strong"%string
      /\ 5 <= score r.
Proof.
  intros ul n ex g Hn.
  destruct (generated_password_facts ul n ex g)
    as (s & g' & Hrun & _ & _ & _ & _ & _ & _ & Hok & _).
  destruct (Hok Hn) as (r & Hr & Hs & H5).
  exists s, g', r. repeat split; assumption.
Qed.

(** C10: a generated password of the requested length 200 is not rated
    Strong: the checker raises [OverflowError] on it, for either setting of
    the option and every random source. *)
Theorem generated_password_of_200_raises :
  forall (unicode_lower : str -> str) (exclude_similar : bool) (g : rng),
    exists s g',
      generate_strong_password 200 exclude_similar g = Ok (s, g')
      /\ len s = 200
      /\ check_password_strength unicode_lower s = Raise OverflowError.
Proof.
  intros ul ex g.
  destruct (generated_password_facts ul 200 ex g)
    as (s & g' & Hrun & _ & _ & _ & _ & _ & _ & _ & Hraise).
  destruct (generate_spec 200 ex g) as (s' & g'' & Hrun' & Hlen & _).
  rewrite Hrun in Hrun'. injection Hrun' as <- <-.
  exists s, g'. repeat split; [exact Hrun | exact Hlen | apply Hraise; lia].
Qed.

(** ** Runs on concrete inputs *)

Lemma score_is_length_points_plus_flags_witness :
  sc_score (score_password (py "Passw0rd!")) = 1 + 1 + 1 + 1 + 1
  /\ sc_issues (score_password (py "Passw0rd!")) = [].
Proof.
  destruct (score_is_length_points_plus_flags no_case_table) as [H _].
  destruct (H (py "Passw0rd!")) as (Hs & Hi & _);
    [discriminate | reflexivity |].
  split; [exact Hs | exact Hi].
Defined.

Lemma strength_is_function_of_score_witness :
  exists r,
    check_password_strength no_case_table (py "MyPassword123!") = Ok r
    /\ strength r = "Strong"%string
    /\ strength r <> "Very Weak"%string.
Proof.
  destruct (check_scored no_case_table (py "MyPassword123!")) as [ct Hct];
    [discriminate | reflexivity | reflexivity |].
  eexists. split; [exact Hct |].
  destruct (strength_is_function_of_score no_case_table _ _ Hct) as [H _].
  destruct H as (_ & _ & H5 & Hvw); [discriminate | reflexivity |].
  split; [apply H5; cbn; lia | exact Hvw].
Defined.

Lemma common_password_short_circuit_witness :
  exists r,
    check_password_strength no_case_table (py "PassWord") = Ok r
    /\ strength r = "Very Weak"%string
    /\ score r = 0
    /\ issues r = ["Password is in the top 1000 common passwords list"%string]
    /\ recommendations r =
         Some ["Choose a unique password that's not commonly used"%string]
    /\ entropy r = None
    /\ crack_time r = None
    /\ checks r = None.
Proof.
  apply (common_password_short_circuit no_case_table (py "PassWord")).
  reflexivity.
Defined.

(** The report of abc123 has score 0 and strength Very Weak, not score 2
    and strength Weak. *)
Lemma abc123_not_scored :
  exists r,
    check_password_strength no_case_table (py "abc123") = Ok r
    /\ score r = 0 /\ strength r = "Very Weak"%string
    /\ score r <> 2 /\ strength r <> "Weak"%string.
Proof.
  exists common_report. repeat split; discriminate.
Qed.

Lemma non_ascii_not_a_letter_witness :
  re_search is_upper [0xC9%N; 0x3A9%N] = false
  /\ re_search is_lower [0xC9%N; 0x3A9%N] = false.
Proof.
  apply (non_ascii_not_a_letter [0xC9%N; 0x3A9%N]).
  repeat constructor.
Defined.

Lemma generated_password_rated_strong_witness :
  exists s g' r,
    generate_strong_password 16 true counting_rng = Ok (s, g')
    /\ check_password_strength no_case_table s = Ok r
    /\ strength r = "Strong"%string
    /\ 5 <= score r.
Proof.
  apply (generated_password_rated_strong no_case_table 16 true counting_rng).
  lia.
Defined.


(** * Further properties *)

(** ** Crack time in terms of the number of guesses *)

Lemma log2_pos (x : R) : (1 < x)%R -> (0 < log2 x)%R.
Proof. intros H. rewrite <- log2_1. apply log2_lt; lra. Qed.



Lemma charset_size_nonempty (pw : str) : charset_size pw <> 0 -> pw <> [].
Proof. intros H ->. now apply H. Qed.

Lemma entropy_of_classified (pw : str) :
  charset_size pw <> 0 ->
  _calculate_entropy pw = log2 (IZR (charset_size pw ^ len pw))
  /\ 10 <= charset_size pw ^ len pw.
Proof.
  intros Hc. split.
  - destruct pw as [| c pw'] eqn:E; [now elim Hc |]. rewrite <- E in *.
    assert (_calculate_entropy pw =
            if charset_size pw =? 0 then 0%R
            else log2 (IZR (charset_size pw ^ len pw))) as -> by now subst.
    apply Z.eqb_neq in Hc. now rewrite Hc.
  - assert (1 <= len pw) as Hl.
    { destruct pw; [now elim Hc | unfold len; simpl List.length; lia]. }
    assert (10 <= charset_size pw) as H10
      by (destruct (charset_size_cases pw); lia).
    apply Z.le_trans with (charset_size pw ^ 1); [lia |].
    apply Z.pow_le_mono_r; lia.
Qed.



(** ** Passwords without any classified character *)

Lemma entropy_zero_iff (pw : str) :
  _calculate_entropy pw = 0%R <-> charset_size pw = 0.
Proof.
  split.
  - intros H0. destruct (Z.eq_dec (charset_size pw) 0) as [| Hc]; [assumption |].
    exfalso. destruct (entropy_of_classified pw Hc) as [He H10].
    rewrite He in H0.
    assert (0 < log2 (IZR (charset_size pw ^ len pw)))%R
      by (apply log2_pos, IZR_lt; lia).
    lra.
  - intros Hc. rewrite entropy_closed_form, Hc. reflexivity.
Qed.

Section MoreReports.

Variable unicode_lower : str -> str.

Abbreviation lower := (lower unicode_lower).
Abbreviation check_password_strength :=
  (check_password_strength unicode_lower).

(** A password made only of characters outside the four classes (blanks,
    letters outside ASCII, ...) has entropy 0 whatever its length, and no
    other password has; unless it is empty or common it is reported with
    that entropy, crack time Instant, the four class issues, a score equal
    to its length points and strength Weak. *)
Theorem classless_password_report :
  forall pw : str,
    (_calculate_entropy pw = 0%R <->
     re_search is_lower pw = false /\ re_search is_upper pw = false
     /\ re_search is_digit pw = false /\ re_search is_special pw = false)
    /\ (pw <> [] -> str_in (lower pw) common_passwords = false ->
        _calculate_entropy pw = 0%R ->
        exists r,
          check_password_strength pw = Ok r
          /\ entropy r = Some 0%R
          /\ crack_time r = Some Instant
          /\ strength r = "Weak"%string
          /\ score r = (if 12 <=? len pw then 2 else if 8 <=? len pw then 1 else 0)
          /\ incl [ "No uppercase letters"; "No lowercase letters";
                    "No numbers"; "No special characters" ]%string (issues r)).
Proof.
  intros pw.
  assert (charset_size pw = 0 <->
          re_search is_lower pw = false /\ re_search is_upper pw = false
          /\ re_search is_digit pw = false /\ re_search is_special pw = false)
    as Hflags.
  { unfold charset_size.
    destruct (re_search is_lower pw), (re_search is_upper pw),
      (re_search is_digit pw), (re_search is_special pw);
      split; try lia; try tauto; intros (? & ? & ? & ?); discriminate. }
  split; [now rewrite entropy_zero_iff |].
  intros Hne Hc H0.
  rewrite check_nonempty, Hc, H0 by exact Hne.
  rewrite crack_time_instant by lra.
  eexists. split; [reflexivity |].
  cbn [entropy crack_time strength score issues scored_report].
  apply entropy_zero_iff, Hflags in H0. destruct H0 as (Fl & Fu & Fd & Fs).
  destruct (score_formula pw) as (Hs & Hi & _ & _).
  rewrite Fl, Fu, Fd, Fs in Hs, Hi. cbn [point missing] in Hs, Hi.
  rewrite Hs, Hi. repeat split.
  - unfold strength_of_score.
    destruct (12 <=? len pw), (8 <=? len pw); reflexivity.
  - destruct (12 <=? len pw), (8 <=? len pw); reflexivity.
  - intros x Hx. apply in_or_app. right. exact Hx.
Qed.


(** ** Invariants of the scored report *)

Lemma length_missing (flag : bool) (a b : string) :
  List.length (missing flag a) = List.length (missing flag b).
Proof. now destruct flag. Qed.

(** In the report of a scored password the recommendations pair up with
    the issues, score and number of issues add up to 6 for a length of 12
    or more and to 5 below; so a report without issues is Strong, and a
    Strong report lists at most one issue for a password of at least 8
    characters. *)
Theorem scored_report_invariants :
  forall (pw : str) (r : report),
    pw <> [] -> str_in (lower pw) common_passwords = false ->
    check_password_strength pw = Ok r ->
    (exists recs, recommendations r = Some recs
                  /\ List.length recs = List.length (issues r))
    /\ score r + Z.of_nat (List.length (issues r))
       = (if 12 <=? len pw then 6 else 5)
    /\ (issues r = [] -> strength r = "Strong"%string)
    /\ (strength r = "Strong"%string ->
        8 <= len pw /\ (List.length (issues r) <= 1)%nat).
Proof.
  intros pw r Hne Hc Hr. rewrite check_nonempty, Hc in Hr by exact Hne.
  destruct (_estimate_crack_time (_calculate_entropy pw)); [| discriminate].
  injection Hr as <-.
  cbn [recommendations issues score strength scored_report].
  destruct (score_formula pw) as (Hs & Hi & Hrec & _).
  assert (sc_score (score_password pw)
          + Z.of_nat (List.length (sc_issues (score_password pw)))
          = if 12 <=? len pw then 6 else 5) as Hsum.
  { rewrite Hs, Hi.
    destruct (Z.leb_spec 12 (len pw)), (Z.leb_spec 8 (len pw)); try lia;
      destruct (re_search is_upper pw), (re_search is_lower pw),
        (re_search is_digit pw), (re_search is_special pw); reflexivity. }
  split; [| split; [exact Hsum | split]].
  - eexists. split; [reflexivity |]. rewrite Hi, Hrec, !length_app.
    repeat (f_equal; [apply length_missing |]). apply length_missing.
  - intros Hnil. rewrite Hnil in Hsum. simpl in Hsum.
    unfold strength_of_score.
    destruct (Z.leb_spec 12 (len pw));
      destruct (Z.leb_spec (sc_score (score_password pw)) 2); try lia;
      destruct (Z.leb_spec (sc_score (score_password pw)) 4); try lia;
      reflexivity.
  - unfold strength_of_score.
    destruct (Z.leb_spec (sc_score (score_password pw)) 2); [discriminate |].
    destruct (Z.leb_spec (sc_score (score_password pw)) 4); [discriminate |].
    intros _. destruct (Z.leb_spec 12 (len pw)); [lia |].
    split; [| lia].
    rewrite Hs in *. destruct (Z.leb_spec 8 (len pw)); [lia |].
    exfalso.
    destruct (re_search is_upper pw), (re_search is_lower pw),
      (re_search is_digit pw), (re_search is_special pw);
      cbn [point] in *; lia.
Qed.

End MoreReports.

Lemma classless_password_report_witness :
  exists r,
    check_password_strength no_case_table (repeat 32%N 20) = Ok r
    /\ entropy r = Some 0%R
    /\ crack_time r = Some Instant
    /\ strength r = "Weak"%string
    /\ score r = 2.
Proof.
  destruct (classless_password_report no_case_table (repeat 32%N 20)) as [[_ Hz] H].
  destruct H as (r & Hr & He & Hc & Hs & Hsc & _).
  - discriminate.
  - reflexivity.
  - apply Hz. repeat split.
  - exists r. repeat split; assumption.
Defined.

Lemma scored_report_invariants_witness :
  exists r,
    check_password_strength no_case_table (py "MyPassword12") = Ok r
    /\ score r + Z.of_nat (List.length (issues r)) = 6
    /\ strength r = "Strong"%string
    /\ (List.length (issues r) <= 1)%nat.
Proof.
  destruct (check_scored no_case_table (py "MyPassword12")) as [ct Hct];
    [discriminate | reflexivity | reflexivity |].
  eexists. split; [exact Hct |].
  destruct (scored_report_invariants no_case_table (py "MyPassword12") _
              ltac:(discriminate) eq_refl Hct) as (_ & Hsum & _ & Hstrong).
  split; [exact Hsum |]. split; [reflexivity |].
  apply Hstrong. reflexivity.
Defined.

(** ** The common-password gate on ASCII passwords *)

Lemma char_in_In (c : char) (s : str) : char_in c s = true <-> In c s.
Proof.
  unfold char_in. rewrite existsb_exists. split.
  - intros (x & Hx & E). apply N.eqb_eq in E. now subst.
  - intros H. exists c. split; [exact H | apply N.eqb_refl].
Qed.

Lemma ascii_lower_special (c : char) :
  is_special c = true -> ascii_lower c = c.
Proof.
  intros H. apply char_in_In in H.
  apply (forallb_In (fun x => N.eqb (ascii_lower x) x)) in H;
    [now apply N.eqb_eq | reflexivity].
Qed.

Lemma common_entry_short (e : str) : In e common_passwords -> len e <= 11.
Proof.
  intros H. apply (forallb_In (fun e => len e <=? 11)) in H;
    [now apply Z.leb_le | reflexivity].
Qed.

Lemma very_weak_iff_common (unicode_lower : str -> str) (pw : str) :
  (exists r, check_password_strength unicode_lower pw = Ok r
             /\ strength r = "Very Weak"%string)
  <-> str_in (lower unicode_lower pw) common_passwords = true.
Proof.
  split.
  - intros (r & Hr & Hs). destruct pw as [| c pw'] eqn:E.
    + injection Hr as <-. discriminate.
    + rewrite <- E in *. rewrite check_nonempty in Hr by (subst; discriminate).
      destruct (str_in (lower unicode_lower pw) common_passwords);
        [reflexivity |].
      destruct (_estimate_crack_time (_calculate_entropy pw)); [| discriminate].
      injection Hr as <-. cbn [strength scored_report] in Hs.
      unfold strength_of_score in Hs.
      destruct (sc_score (score_password pw) <=? 2),
        (sc_score (score_password pw) <=? 4); discriminate.
  - intros Hc. exists common_report.
    rewrite check_nonempty, Hc by (now apply (common_nonempty unicode_lower)).
    split; reflexivity.
Qed.

(** An ASCII password is reported Very Weak exactly when its letters,
    lower-cased, spell an entry of the common list, however it is
    capitalised; one with a special character or with more than 11
    characters never is. *)
Theorem ascii_password_very_weak_iff_listed :
  forall (unicode_lower : str -> str) (pw : str),
    forallb is_ascii pw = true ->
    ((exists r, check_password_strength unicode_lower pw = Ok r
                /\ strength r = "Very Weak"%string)
     <-> In (map ascii_lower pw) common_passwords)
    /\ (re_search is_special pw = true \/ 11 < len pw ->
        str_in (lower unicode_lower pw) common_passwords = false).
Proof.
  intros ul pw Hascii.
  split.
  - rewrite very_weak_iff_common, lower_ascii by exact Hascii.
    apply str_in_In.
  - intros H. rewrite lower_ascii by exact Hascii.
    destruct (str_in (map ascii_lower pw) common_passwords) eqn:E;
      [exfalso | reflexivity].
    apply str_in_In in E. destruct H as [Hs | Hl].
    + apply common_has_no_special in E.
      apply existsb_exists in Hs. destruct Hs as (c & Hc & Hsp).
      rewrite (existsb_In _ _ (ascii_lower c)) in E;
        [discriminate | now apply in_map |].
      now rewrite ascii_lower_special.
    + apply common_entry_short in E. unfold len in *.
      rewrite length_map in E. lia.
Qed.

Lemma ascii_password_very_weak_iff_listed_witness :
  (exists r, check_password_strength no_case_table (py "LetMeIn") = Ok r
             /\ strength r = "Very Weak"%string)
  /\ str_in (lower no_case_table (py "letmein!")) common_passwords = false.
Proof.
  split.
  - apply (ascii_password_very_weak_iff_listed no_case_table (py "LetMeIn"));
      [reflexivity |].
    apply str_in_In. reflexivity.
  - apply (ascii_password_very_weak_iff_listed no_case_table (py "letmein!"));
      [reflexivity |].
    left. reflexivity.
Defined.

(** ** Extending a password *)

Lemma re_search_app (cls : char -> bool) (p q : str) :
  re_search cls (p ++ q) = (re_search cls p || re_search cls q)%bool.
Proof. apply existsb_app. Qed.

Lemma len_app (p q : str) : len (p ++ q) = len p + len q.
Proof. unfold len. rewrite length_app. lia. Qed.

Lemma len_nonneg (p : str) : 0 <= len p.
Proof. unfold len. lia. Qed.

Lemma point_orb_l (a b : bool) : point a <= point (a || b).
Proof. destruct a, b; cbn; lia. Qed.

Lemma point_orb_r (a b : bool) : point b <= point (a || b).
Proof. destruct a, b; cbn; lia. Qed.

Lemma length_points_mono (n m : Z) :
  n <= m ->
  (if 12 <=? n then 2 else if 8 <=? n then 1 else 0)
  <= (if 12 <=? m then 2 else if 8 <=? m then 1 else 0).
Proof.
  intros H.
  destruct (Z.leb_spec 12 n), (Z.leb_spec 8 n), (Z.leb_spec 12 m),
    (Z.leb_spec 8 m); lia.
Qed.

(** Characters added in front of or behind a password never lower the
    score of its length and variety checks. *)
Theorem score_monotone_under_extension :
  forall p q : str,
    sc_score (score_password p) <= sc_score (score_password (p ++ q))
    /\ sc_score (score_password p) <= sc_score (score_password (q ++ p)).
Proof.
  intros p q.
  destruct (score_formula p) as (Hp & _).
  destruct (score_formula (p ++ q)) as (Hpq & _).
  destruct (score_formula (q ++ p)) as (Hqp & _).
  rewrite Hp, Hpq, Hqp, !re_search_app.
  pose proof (len_nonneg q).
  split.
  - pose proof (length_points_mono (len p) (len (p ++ q))
                  ltac:(rewrite len_app; lia)).
    pose proof (point_orb_l (re_search is_upper p) (re_search is_upper q)).
    pose proof (point_orb_l (re_search is_lower p) (re_search is_lower q)).
    pose proof (point_orb_l (re_search is_digit p) (re_search is_digit q)).
    pose proof (point_orb_l (re_search is_special p) (re_search is_special q)).
    lia.
  - pose proof (length_points_mono (len p) (len (q ++ p))
                  ltac:(rewrite len_app; lia)).
    pose proof (point_orb_r (re_search is_upper q) (re_search is_upper p)).
    pose proof (point_orb_r (re_search is_lower q) (re_search is_lower p)).
    pose proof (point_orb_r (re_search is_digit q) (re_search is_digit p)).
    pose proof (point_orb_r (re_search is_special q) (re_search is_special p)).
    lia.
Qed.

Lemma charset_size_app_l (p q : str) :
  charset_size p <= charset_size (p ++ q).
Proof.
  unfold charset_size. rewrite !re_search_app.
  destruct (re_search is_lower p), (re_search is_upper p),
    (re_search is_digit p), (re_search is_special p),
    (re_search is_lower q), (re_search is_upper q),
    (re_search is_digit q), (re_search is_special q); cbn; lia.
Qed.

Lemma charset_size_app_r (p q : str) :
  charset_size p <= charset_size (q ++ p).
Proof.
  unfold charset_size. rewrite !re_search_app.
  destruct (re_search is_lower p), (re_search is_upper p),
    (re_search is_digit p), (re_search is_special p),
    (re_search is_lower q), (re_search is_upper q),
    (re_search is_digit q), (re_search is_special q); cbn; lia.
Qed.

Lemma entropy_mono (p s : str) :
  charset_size p <= charset_size s -> len p <= len s ->
  (_calculate_entropy p <= _calculate_entropy s)%R.
Proof.
  intros Hc Hl. rewrite (entropy_closed_form p).
  destruct (charset_size p =? 0) eqn:Hz; [apply entropy_nonneg |].
  apply Z.eqb_neq in Hz. rewrite (entropy_closed_form s).
  assert (10 <= charset_size p) by (destruct (charset_size_cases p); lia).
  destruct (charset_size s =? 0) eqn:Hz'; [apply Z.eqb_eq in Hz'; lia |].
  apply Rmult_le_compat.
  - apply IZR_le, len_nonneg.
  - apply log2_nonneg, IZR_le. lia.
  - now apply IZR_le.
  - apply log2_le; [apply IZR_lt; lia | now apply IZR_le].
Qed.

(** Characters added in front of or behind a password never lower its
    entropy, whatever classes they bring. *)
Theorem entropy_monotone_under_extension :
  forall p q : str,
    (_calculate_entropy p <= _calculate_entropy (p ++ q))%R
    /\ (_calculate_entropy p <= _calculate_entropy (q ++ p))%R.
Proof.
  intros p q. pose proof (len_nonneg q).
  split; apply entropy_mono;
    try apply charset_size_app_l; try apply charset_size_app_r;
    rewrite len_app; lia.
Qed.

(** ** The generator's use of the random source *)







(** * Properties of the callers *)

(** ** Rules for runs *)

Lemma hoare_ret {A} (a : A) (P : line -> Prop) (Q : A -> Prop)
    (E : io_exn -> Prop) :
  Q a -> hoare (io_ret a) P Q E.
Proof.
  intros H w. exists []. cbn. rewrite app_nil_r. repeat split; auto.
Qed.

Lemma hoare_throw {A} (e : io_exn) (P : line -> Prop) (Q : A -> Prop)
    (E : io_exn -> Prop) :
  E e -> hoare (throw e) P Q E.
Proof.
  intros H w. exists []. cbn. rewrite app_nil_r. repeat split; auto.
Qed.

Lemma hoare_print (l : line) (P : line -> Prop) (E : io_exn -> Prop) :
  P l -> hoare (print l) P (fun _ => True) E.
Proof.
  intros H w. exists [l]. cbn. repeat split; auto.
Qed.

Lemma hoare_bind {A B} (m : IO A) (k : A -> IO B) (P : line -> Prop)
    (Q : A -> Prop) (Q' : B -> Prop) (E : io_exn -> Prop) :
  hoare m P Q E -> (forall a, Q a -> hoare (k a) P Q' E) ->
  hoare (io_bind m k) P Q' E.
Proof.
  intros Hm Hk w. destruct (Hm w) as (new1 & Hout & HP & Hres).
  unfold io_bind. destruct (m w) as [[e | a] w1]; cbn in *.
  - exists new1. auto.
  - destruct (Hk a Hres w1) as (new2 & Hout2 & HP2 & Hres2).
    exists (new1 ++ new2). rewrite Hout2, Hout, app_assoc.
    repeat split; [now apply Forall_app | exact Hres2].
Qed.

Lemma hoare_when (b : bool) (m : IO unit) (P : line -> Prop)
    (E : io_exn -> Prop) :
  (b = true -> hoare m P (fun _ => True) E) ->
  hoare (when b m) P (fun _ => True) E.
Proof.
  intros H. destruct b; [now apply H | now apply hoare_ret].
Qed.

Lemma hoare_for_each {A} (l : list A) (body : A -> IO unit)
    (P : line -> Prop) (E : io_exn -> Prop) :
  (forall x, In x l -> hoare (body x) P (fun _ => True) E) ->
  hoare (for_each l body) P (fun _ => True) E.
Proof.
  induction l as [| x l IH]; intros H; cbn [for_each].
  - now apply hoare_ret.
  - eapply hoare_bind; [apply H; now left |].
    intros _ _. apply IH. intros y Hy. apply H. now right.
Qed.

Lemma hoare_getitem {A} (key : string) (v : option A) (P : line -> Prop)
    (E : io_exn -> Prop) :
  (v = None -> E (KeyError key)) ->
  hoare (getitem key v) P (fun a => v = Some a) E.
Proof.
  intros H. destruct v; [now apply hoare_ret | now apply hoare_throw, H].
Qed.

Lemma hoare_call {A} (r : result A) (P : line -> Prop) (E : io_exn -> Prop) :
  (forall e, r = Raise e -> E (Uncaught e)) ->
  hoare (call r) P (fun a => r = Ok a) E.
Proof.
  intros H. destruct r; [now apply hoare_ret | now apply hoare_throw, H].
Qed.

Lemma hoare_draw {A} (m : M A) (P : line -> Prop) (Q : A -> Prop)
    (E : io_exn -> Prop) :
  (forall g, match m g with
             | Ok (a, _) => Q a
             | Raise e => E (Uncaught e)
             end) ->
  hoare (draw m) P Q E.
Proof.
  intros H w. exists []. unfold draw. specialize (H (w_rng w)).
  destruct (m (w_rng w)) as [[a g] | e]; cbn; rewrite app_nil_r;
    repeat split; auto.
Qed.

(** ** What the checker hands to its callers *)

Lemma crack_time_raise (e : R) (x : exn) :
  _estimate_crack_time e = Raise x -> x = OverflowError.
Proof.
  unfold _estimate_crack_time, float_pow2.
  destruct (Rle_dec e 0); [discriminate |].
  destruct (Rle_dec 1024 (e - 1)); [congruence |]. cbv zeta.
  repeat (match goal with
          | |- context [Rlt_dec ?a ?b] => destruct (Rlt_dec a b)
          end; [discriminate |]).
  discriminate.
Qed.

Lemma check_raise (unicode_lower : str -> str) (pw : str) (x : exn) :
  check_password_strength unicode_lower pw = Raise x -> x = OverflowError.
Proof.
  destruct pw as [| c pw'] eqn:E; [discriminate |]. rewrite <- E.
  rewrite check_nonempty by (subst; discriminate).
  destruct (str_in _ _); [discriminate |].
  destruct (_estimate_crack_time (_calculate_entropy pw)) eqn:Hct;
    [discriminate |].
  intros [= <-]. now apply crack_time_raise in Hct.
Qed.

Lemma check_cases (unicode_lower : str -> str) (pw : str) (r : report) :
  check_password_strength unicode_lower pw = Ok r ->
  (pw = [] /\ r = empty_report)
  \/ (str_in (lower unicode_lower pw) common_passwords = true
      /\ r = common_report)
  \/ (pw <> [] /\ str_in (lower unicode_lower pw) common_passwords = false
      /\ exists ct,
           r = scored_report pw (score_password pw) (_calculate_entropy pw) ct).
Proof.
  destruct pw as [| c pw'] eqn:E; [intros [= <-]; now left |]. rewrite <- E.
  assert (pw <> []) as Hne by (subst; discriminate).
  rewrite check_nonempty by exact Hne.
  destruct (str_in _ _); [intros [= <-]; right; now left |].
  destruct (_estimate_crack_time (_calculate_entropy pw)) as [ct |];
    [| discriminate].
  intros [= <-]. right. right. repeat split; auto. now exists ct.
Qed.

Lemma scored_not_very_weak (z : Z) :
  String.eqb (strength_of_score z) "Very Weak" = false.
Proof.
  unfold strength_of_score. destruct (z <=? 2), (z <=? 4); reflexivity.
Qed.

(** A generated password of a length up to 156 gets the full report of the
    scoring path, rated Strong. *)
Lemma generated_password_scored (unicode_lower : str -> str) (n : Z)
    (exclude_similar : bool) (g : rng) :
  n <= 156 ->
  exists s g' ct,
    generate_strong_password n exclude_similar g = Ok (s, g')
    /\ len s = Z.max n 8
    /\ check_password_strength unicode_lower s =
       Ok (scored_report s (score_password s) (_calculate_entropy s) ct)
    /\ strength_of_score (sc_score (score_password s)) = "Strong"%string.
Proof.
  intros Hn.
  destruct (generated_password_facts unicode_lower n exclude_similar g)
    as (s & g' & Hrun & _ & _ & _ & _ & Hnc & _ & Hok & _).
  destruct (generate_spec n exclude_similar g) as (s' & g'' & Hrun' & Hlen & _).
  rewrite Hrun in Hrun'. injection Hrun' as <- <-.
  destruct (Hok Hn) as (r & Hr & Hs & _).
  destruct (check_cases _ _ _ Hr) as [[-> _] | [[Hc _] | (_ & _ & ct & ->)]].
  - unfold len in Hlen. simpl in Hlen. lia.
  - congruence.
  - exists s, g', ct. repeat split; assumption.
Qed.

(** ** The interactive checker *)

Ltac line_differs :=
  let H := fresh in
  unfold warning_line, demo_warning_line; intros H; cbn in H; congruence.

Ltac then_print :=
  eapply hoare_bind; [apply hoare_print; line_differs | intros _ _].

Ltac then_getitem :=
  let H := fresh in
  eapply hoare_bind;
  [apply hoare_getitem; intros H; discriminate H | intros ? _].

Ltac then_listing :=
  eapply hoare_bind;
  [ apply hoare_when; intros _;
    eapply hoare_bind;
    [ apply hoare_print; line_differs
    | intros _ _; apply hoare_for_each; intros ? _;
      apply hoare_print; line_differs ]
  | intros _ _ ].

Lemma main_check_run (unicode_lower : str -> str) (password : str) :
  hoare (main_check unicode_lower password)
    (fun l => l <> warning_line) (fun _ => True)
    (fun e => e = KeyError "entropy" \/ e = Uncaught OverflowError).
Proof.
  destruct password as [| c password'] eqn:E; [now apply hoare_ret |].
  cbn [main_check]. rewrite <- E.
  eapply hoare_bind.
  { apply hoare_call. intros e He. apply check_raise in He. subst. now right. }
  intros r Hr.
  destruct (check_cases _ _ _ Hr)
    as [[Hnil _] | [[Hc ->] | (_ & Hc & ct & ->)]]; [congruence | |].
  - do 3 then_print.
    eapply hoare_bind; [apply hoare_getitem; intros _; now left |].
    intros e He. discriminate He.
  - do 3 then_print. then_getitem. then_print. then_getitem. then_print.
    then_getitem.
    eapply hoare_bind.
    { then_print.
      do 4 (eapply hoare_bind;
            [ apply hoare_when; intros _; apply hoare_print; line_differs
            | intros _ _ ]).
      apply hoare_when; intros _; apply hoare_print; line_differs. }
    intros _ _. then_listing. then_getitem. then_listing.
    apply hoare_when. intros H. cbn [strength scored_report] in H.
    rewrite scored_not_very_weak in H. discriminate H.
Qed.

(** Choice 1 of the menu on a common password prints the analysis header,
    the strength Very Weak and the score 0, and then fails with a
    [KeyError] on the entropy key, which the short-circuit report lacks.
    So the warning block, reserved to Very Weak reports, is never printed,
    for any password; the only other failure is the [OverflowError] of the
    checker. *)
Theorem main_check_common_password_key_error :
  forall (unicode_lower : str -> str) (password : str) (w : world),
    (str_in (lower unicode_lower password) common_passwords = true ->
     main_check unicode_lower password w =
     (inl (KeyError "entropy"),
      {| w_rng := w_rng w;
         w_out := w_out w ++
           [ [Lit (nl ++ "Password Analysis:")];
             [Lit "Strength: "; Lit "Very Weak"];
             [Lit "Score: "; Int 0; Lit "/6"] ] |}))
    /\ exists new,
         w_out (snd (main_check unicode_lower password w)) = w_out w ++ new
         /\ ~ In warning_line new
         /\ match fst (main_check unicode_lower password w) with
            | inr _ => True
            | inl e => e = KeyError "entropy" \/ e = Uncaught OverflowError
            end.
Proof.
  intros ul password w. split.
  - intros Hc. pose proof (common_nonempty ul password Hc) as Hne.
    pose proof (check_nonempty ul password Hne) as Hr. rewrite Hc in Hr.
    destruct password as [| c password']; [congruence |].
    unfold main_check, io_bind. rewrite Hr. cbn.
    rewrite <- !app_assoc. reflexivity.
  - destruct (main_check_run ul password w) as (new & Hout & HP & Hres).
    exists new. repeat split; [exact Hout | | exact Hres].
    intros Hin. rewrite Forall_forall in HP. now apply (HP _ Hin).
Qed.

(** Choice 2 of the menu never fails, whatever integer is typed and
    whatever the random source: the length is clamped to 8..50, the
    generated password has that length and is rated Strong, and six lines
    are printed.  When the length does not parse, a password of the default
    length 16 is printed after the error line. *)
Theorem main_generate_never_fails :
  forall (unicode_lower : str -> str) (length : option Z)
         (exclude_similar : bool) (w : world),
    exists password g',
      match length with
      | Some n =>
          8 <= len password <= 50
          /\ len password = Z.max 8 (Z.min 50 n)
          /\ exists e ct,
               main_generate unicode_lower length exclude_similar w =
               (inr tt,
                {| w_rng := g';
                   w_out := w_out w ++
                     [ [Lit (nl ++ "Generated Password:")];
                       [Lit "Password: "; Chars password];
                       [Lit "Length: "; Int (len password); Lit " characters"];
                       [Lit "Strength: "; Lit "Strong"];
                       [Lit "Entropy: "; Float2 e; Lit " bits"];
                       [Lit "Estimated crack time: "; Crack ct] ] |})
      | None =>
          len password = 16
          /\ main_generate unicode_lower length exclude_similar w =
             (inr tt,
              {| w_rng := g';
                 w_out := w_out w ++
                   [ [Lit "ERROR: Invalid length. Using default length of 16."];
                     [Lit "Generated password: "; Chars password] ] |})
      end.
Proof.
  intros ul length ex w. destruct length as [n |].
  - destruct (generated_password_scored ul (Z.max 8 (Z.min 50 n)) ex (w_rng w))
      as (s & g' & ct & Hrun & Hlen & Hcheck & Hstrong); [lia |].
    exists s, g'. split; [lia |]. split; [lia |].
    exists (_calculate_entropy s), ct.
    unfold main_generate, io_bind, draw. rewrite Hrun. cbn.
    rewrite Hcheck. cbn. unfold print. cbn.
    rewrite Hstrong, <- !app_assoc. reflexivity.
  - destruct (generate_spec 16 true (w_rng w)) as (s & g' & Hrun & Hlen & _).
    exists s, g'. split; [exact Hlen |].
    unfold main_generate, io_bind, print, draw. cbn. rewrite Hrun. cbn.
    rewrite <- !app_assoc. reflexivity.
Qed.

(** ** The demo *)

Lemma demo_analyse_run (unicode_lower : str -> str) (i : Z) (p : str) :
  hoare (demo_analyse unicode_lower i p)
    (fun l => l <> demo_warning_line) (fun _ => True)
    (fun e => ~ scorable unicode_lower p
              /\ (e = KeyError "entropy" \/ e = Uncaught OverflowError)).
Proof.
  unfold demo_analyse. do 2 then_print.
  eapply hoare_bind.
  { apply hoare_call. intros e He.
    pose proof (check_raise _ _ _ He) as ->. split; [| now right].
    intros (Hne & Hc & Hr).
    destruct (check_scored unicode_lower p Hne Hc Hr) as [ct Hct]. congruence. }
  intros r Hr.
  destruct (check_cases _ _ _ Hr)
    as [[Hnil ->] | [[Hc ->] | (_ & Hc & ct & ->)]].
  - do 2 then_print.
    eapply hoare_bind.
    { apply hoare_getitem. intros _. split; [| now left].
      intros (Hne & _). congruence. }
    intros e He. discriminate He.
  - do 2 then_print.
    eapply hoare_bind.
    { apply hoare_getitem. intros _. split; [| now left].
      intros (_ & Hc' & _). congruence. }
    intros e He. discriminate He.
  - do 2 then_print. then_getitem. then_print. then_getitem. then_print.
    then_getitem.
    eapply hoare_bind; [do 5 then_print; apply hoare_print; line_differs |].
    intros _ _. then_listing. then_getitem. then_listing.
    apply hoare_when. intros H. cbn [strength scored_report] in H.
    rewrite scored_not_very_weak in H. discriminate H.
Qed.

Lemma demo_analyse_ok (unicode_lower : str -> str) (i : Z) (p : str)
    (w : world) :
  scorable unicode_lower p -> fst (demo_analyse unicode_lower i p w) = inr tt.
Proof.
  intros Hs. destruct (demo_analyse_run unicode_lower i p w) as (_ & _ & _ & H).
  destruct (fst (demo_analyse unicode_lower i p w)) as [e | []];
    [| reflexivity].
  destruct H as [Hn _]. now elim Hn.
Qed.

Lemma demo_analyse_fails (unicode_lower : str -> str) (i : Z) (p : str)
    (w : world) :
  ~ scorable unicode_lower p ->
  exists e, fst (demo_analyse unicode_lower i p w) = inl e.
Proof.
  intros Hn. unfold demo_analyse, io_bind, print. cbn.
  destruct p as [| c p'] eqn:E; [cbn; now eexists |]. rewrite <- E in *.
  assert (p <> []) as Hne by (subst; discriminate).
  rewrite check_nonempty by exact Hne.
  destruct (str_in (lower unicode_lower p) common_passwords) eqn:Hc;
    [cbn; now eexists |].
  destruct (Z.lt_ge_cases (charset_size p ^ len p) (2 ^ 1025)) as [Hr | Hr].
  - elim Hn. repeat split; assumption.
  - rewrite crack_time_overflow by (now apply entropy_out_of_range).
    cbn. now eexists.
Qed.

Lemma fst_io_bind {A B} (m : IO A) (k : A -> IO B) (w : world) (b : B) :
  fst (io_bind m k w) = inr b <->
  exists a, fst (m w) = inr a /\ fst (k a (snd (m w))) = inr b.
Proof.
  unfold io_bind. destruct (m w) as [[e | a] w1]; cbn.
  - split; [discriminate | intros (a & Ha & _); discriminate].
  - split; [intros H; now exists a | intros (a' & [= <-] & H); exact H].
Qed.

Lemma demo_loop_completes (unicode_lower : str -> str) (passwords : list str) :
  forall (start : Z) (w : world),
    fst (for_each (enumerate start passwords)
           (fun '(i, password) => demo_analyse unicode_lower i password) w)
    = inr tt
    <-> Forall (scorable unicode_lower) passwords.
Proof.
  induction passwords as [| p ps IH]; intros start w; cbn [enumerate for_each].
  - split; [constructor | reflexivity].
  - rewrite fst_io_bind. split.
    + intros ([] & Hp & Hps). constructor.
      * destruct (Z.lt_ge_cases (charset_size p ^ len p) (2 ^ 1025));
          destruct (str_in (lower unicode_lower p) common_passwords) eqn:Hc;
          destruct p as [| c p'] eqn:E;
          try (repeat split; [discriminate | assumption | assumption]);
          rewrite <- E in *;
          (destruct (demo_analyse_fails unicode_lower start p w) as [e He];
           [| congruence]);
          intros (Hne & Hc' & Hr); subst; try congruence; lia.
      * now apply IH in Hps.
    + intros H. inversion H as [| ? ? Hp Hps]; subst. exists tt. split.
      * now apply demo_analyse_ok.
      * now apply IH.
Qed.

Lemma demo_loop_run (unicode_lower : str -> str) (passwords : list str) :
  forall start : Z,
    hoare (for_each (enumerate start passwords)
             (fun '(i, password) => demo_analyse unicode_lower i password))
      (fun l => l <> demo_warning_line) (fun _ => True)
      (fun e => e = KeyError "entropy" \/ e = Uncaught OverflowError).
Proof.
  induction passwords as [| p ps IH]; intros start; cbn [enumerate for_each].
  - now apply hoare_ret.
  - eapply hoare_bind; [| intros _ _; apply IH].
    intros w. destruct (demo_analyse_run unicode_lower start p w)
      as (new & Hout & HP & Hres).
    exists new. repeat split; [exact Hout | exact HP |].
    destruct (fst (demo_analyse unicode_lower start p w)); [apply Hres | exact I].
Qed.

(** The analysis loop of the demo gets through a list of passwords exactly
    when each of them is given a full report: it stops with an exception at
    an empty password, at a common one (both reports lack the entropy key)
    and at one whose crack time overflows.  On its own list the demo stops
    at the first password, 123456, with a [KeyError] after six lines; and
    it never prints its warning line, for any list. *)
Theorem demo_analysis_stops_without_report :
  forall unicode_lower : str -> str,
    (forall (passwords : list str) (w : world),
       fst (demo_analyse_all unicode_lower passwords w) = inr tt
       <-> Forall (scorable unicode_lower) passwords)
    /\ (forall w : world,
          demo_password_analysis unicode_lower w =
          (inl (KeyError "entropy"),
           {| w_rng := w_rng w;
              w_out := w_out w ++
                [ [Lit "🔐 Password Strength Checker - Demo"];
                  [Lit (str_repeat "=" 50)];
                  [Lit nl; Int2 1; Lit ". Testing: '"; Chars (py "123456");
                   Lit "'"];
                  [Lit (str_repeat "-" 40)];
                  [Lit "Strength: "; Lit "Very Weak"];
                  [Lit "Score: "; Int 0; Lit "/6"] ] |}))
    /\ (forall (passwords : list str) (w : world),
          exists new,
            w_out (snd (demo_analyse_all unicode_lower passwords w))
            = w_out w ++ new
            /\ ~ In demo_warning_line new
            /\ match fst (demo_analyse_all unicode_lower passwords w) with
               | inr _ => True
               | inl e => e = KeyError "entropy" \/ e = Uncaught OverflowError
               end).
Proof.
  intros ul. split; [| split].
  - intros passwords w. apply demo_loop_completes.
  - intros w. unfold demo_password_analysis, io_bind, print. cbn.
    rewrite <- !app_assoc. reflexivity.
  - intros passwords w.
    destruct (demo_loop_run ul passwords 1 w) as (new & Hout & HP & Hres).
    exists new. repeat split; [exact Hout | | exact Hres].
    intros Hin. rewrite Forall_forall in HP. now apply (HP _ Hin).
Qed.

Ltac other_line :=
  let H := fresh in
  unfold strength_entropy_line; intros ? ? H; cbn in H; congruence.

Lemma draw_generated (unicode_lower : str -> str) (n : Z)
    (exclude_similar : bool) (P : line -> Prop) :
  n <= 156 ->
  hoare (draw (generate_strong_password n exclude_similar)) P
    (fun s => exists ct,
       check_password_strength unicode_lower s =
       Ok (scored_report s (score_password s) (_calculate_entropy s) ct)
       /\ strength_of_score (sc_score (score_password s)) = "Strong"%string)
    (fun _ => False).
Proof.
  intros Hn. apply hoare_draw. intros g.
  destruct (generated_password_scored unicode_lower n exclude_similar g Hn)
    as (s & g' & ct & Hrun & _ & Hcheck & Hstrong).
  rewrite Hrun. now exists ct.
Qed.

Lemma demo_generate_run (unicode_lower : str -> str) (length : Z) :
  length <= 156 ->
  hoare (demo_generate unicode_lower length)
    (fun l => forall s e, l = strength_entropy_line s e -> s = "Strong"%string)
    (fun _ => True) (fun _ => False).
Proof.
  intros Hn. unfold demo_generate.
  eapply hoare_bind; [apply hoare_print; other_line | intros _ _].
  eapply hoare_bind; [now apply (draw_generated unicode_lower) |].
  intros s (ct & Hcheck & Hstrong).
  eapply hoare_bind; [apply hoare_print; other_line | intros _ _].
  eapply hoare_bind.
  { apply hoare_call. intros x Hx. rewrite Hcheck in Hx. discriminate Hx. }
  intros r Hr. rewrite Hcheck in Hr. injection Hr as <-.
  eapply hoare_bind; [apply hoare_getitem; intros H; discriminate H |].
  intros e _.
  eapply hoare_bind.
  { apply hoare_print. intros s' e' H. injection H as <- _. exact Hstrong. }
  intros _ _.
  eapply hoare_bind; [apply hoare_getitem; intros H; discriminate H |].
  intros ct' _.
  apply hoare_print. other_line.
Qed.

(** The generation demo never fails, whatever the random source: each of
    its six passwords is generated and checked without exception, and every
    strength it prints next to an entropy is Strong. *)
Theorem demo_generation_never_fails :
  forall (unicode_lower : str -> str) (w : world),
    exists new,
      fst (demo_password_generation unicode_lower w) = inr tt
      /\ w_out (snd (demo_password_generation unicode_lower w)) = w_out w ++ new
      /\ forall s e, In (strength_entropy_line s e) new -> s = "Strong"%string.
Proof.
  intros ul w.
  assert (hoare (demo_password_generation ul)
            (fun l => forall s e,
                 l = strength_entropy_line s e -> s = "Strong"%string)
            (fun _ => True) (fun _ => False)) as Hrun.
  { unfold demo_password_generation.
    do 2 (eapply hoare_bind; [apply hoare_print; other_line | intros _ _]).
    eapply hoare_bind.
    { apply hoare_for_each. intros x Hx. apply demo_generate_run.
      simpl in Hx. intuition lia. }
    intros _ _.
    eapply hoare_bind; [apply hoare_print; other_line | intros _ _].
    eapply hoare_bind; [apply (draw_generated ul); lia |].
    intros s (ct & Hcheck & Hstrong).
    eapply hoare_bind; [apply hoare_print; other_line | intros _ _].
    eapply hoare_bind.
    { apply hoare_call. intros x Hx. rewrite Hcheck in Hx. discriminate Hx. }
    intros r Hr. rewrite Hcheck in Hr. injection Hr as <-.
    eapply hoare_bind; [apply hoare_getitem; intros H; discriminate H |].
    intros e _.
    apply hoare_print. intros s' e' H. injection H as <- _. exact Hstrong. }
  destruct (Hrun w) as (new & Hout & HP & Hres).
  exists new. split; [| split; [exact Hout |]].
  - destruct (fst (demo_password_generation ul w)) as [e | []];
      [contradiction | reflexivity].
  - intros s e Hin. rewrite Forall_forall in HP. now apply (HP _ Hin s e).
Qed.

(** ** Runs of the callers on concrete inputs *)

Lemma main_check_common_password_key_error_witness :
  main_check no_case_table (py "Password")
    {| w_rng := counting_rng; w_out := [] |} =
  (inl (KeyError "entropy"),
   {| w_rng := counting_rng;
      w_out :=
        [ [Lit (nl ++ "Password Analysis:")];
          [Lit "Strength: "; Lit "Very Weak"];
          [Lit "Score: "; Int 0; Lit "/6"] ] |}).
Proof.
  apply (main_check_common_password_key_error no_case_table (py "Password")
           {| w_rng := counting_rng; w_out := [] |}).
  reflexivity.
Defined.
